(** * Schema compiler and tool invocation of the agent runtime

    A shallow embedding of

    - [src/worker/agents/inferutils/zodToJsonSchema.ts]: the compiler from
      Zod schemas to the JSON-Schema dialect of the provider's structured
      outputs ([processZodType] and its helpers, [createAnthropicOutputFormat]);
    - [src/worker/agents/tools/customTools.ts]: [executeToolWithDefinition].

    JavaScript objects whose key order is observable are association lists in
    property order; an absent or [undefined] field is [None]; a JavaScript
    number is an integer of [Z].  The compiler recurses through [z.lazy]
    getters without a visited set, so it is embedded with a fuel argument that
    bounds the depth of nested [processZodType] calls: [None] stands for a
    call that has not returned within that depth. *)

From Stdlib Require Import String List ZArith Bool Arith Lia.
Import ListNotations.

Set Warnings "-register-all".

Local Open Scope string_scope.
Local Open Scope list_scope.

(** ** JavaScript values and objects *)

(** The values that occur as literals, enum members and defaults. *)
Inductive JSValue : Type :=
| JSNull
| JSBool (b : bool)
| JSNumber (n : Z)
| JSString (s : string)
| JSArray (elements : list JSValue)
| JSObject (entries : list (string * JSValue)).

(** The [typeof] operator. *)
Definition typeof (v : JSValue) : string :=
  match v with
  | JSNull => "object"
  | JSBool _ => "boolean"
  | JSNumber _ => "number"
  | JSString _ => "string"
  | JSArray _ => "object"
  | JSObject _ => "object"
  end.

(** [Object.values(o)] and [Object.entries(o)] on an object given by its
    entries in property order. *)
Definition Object_values {V : Type} (o : list (string * V)) : list V :=
  map snd o.

Definition Object_keys {V : Type} (o : list (string * V)) : list string :=
  map fst o.

(** Setting an own property: overwrite in place when the key exists,
    append otherwise. *)
Fixpoint setOwn {V : Type} (key : string) (v : V) (o : list (string * V))
  : list (string * V) :=
  match o with
  | [] => [(key, v)]
  | (k, x) :: rest =>
      if String.eqb k key then (k, v) :: rest else (k, x) :: setOwn key v rest
  end.

(** [o[key] = v] on an object literal, for a [v] that is an object: every
    key sets an own property, except [__proto__], whose setter on
    [Object.prototype] replaces the prototype of [o] and adds no own
    property.  The list holds the own properties, which are what
    [Object.entries] and [JSON.stringify] see. *)
Definition assign {V : Type} (key : string) (v : V) (o : list (string * V))
  : list (string * V) :=
  if String.eqb key "__proto__" then o else setOwn key v o.

(** [o[key]]. *)
Fixpoint lookup {V : Type} (key : string) (o : list (string * V)) : option V :=
  match o with
  | [] => None
  | (k, x) :: rest => if String.eqb k key then Some x else lookup key rest
  end.

(** Truthiness of an optional string ([if (s)]): [undefined] and the empty
    string are falsy. *)
Definition truthy (s : option string) : bool :=
  match s with
  | None => false
  | Some "" => false
  | Some _ => true
  end.

(** ** The target dialect: [JsonSchema] *)

Inductive JsonSchema : Type := mkJsonSchema {
  type : option string;
  properties : option (list (string * JsonSchema));
  required : option (list string);
  additionalProperties : option bool;
  items : option JsonSchema;
  enum : option (list JSValue);
  const : option JSValue;
  anyOf : option (list JsonSchema);
  allOf : option (list JsonSchema);
  ref : option string;
  defs : option (list (string * JsonSchema));
  definitions : option (list (string * JsonSchema));
  default : option JSValue;
  description : option string;
  format : option string;
  minItems : option Z;
  nullable : option bool
}.

(** The object literal [{}]. *)
Definition emptySchema : JsonSchema :=
  mkJsonSchema None None None None None None None None None None None None
               None None None None None.

(** Field updates, as object literals and assignments build them. *)
Definition set_type (v : string) (s : JsonSchema) : JsonSchema :=
  mkJsonSchema (Some v) (properties s) (required s) (additionalProperties s)
    (items s) (enum s) (const s) (anyOf s) (allOf s) (ref s) (defs s)
    (definitions s) (default s) (description s) (format s) (minItems s)
    (nullable s).

Definition set_properties (v : list (string * JsonSchema)) (s : JsonSchema)
  : JsonSchema :=
  mkJsonSchema (type s) (Some v) (required s) (additionalProperties s)
    (items s) (enum s) (const s) (anyOf s) (allOf s) (ref s) (defs s)
    (definitions s) (default s) (description s) (format s) (minItems s)
    (nullable s).

Definition set_required (v : option (list string)) (s : JsonSchema)
  : JsonSchema :=
  mkJsonSchema (type s) (properties s) v (additionalProperties s)
    (items s) (enum s) (const s) (anyOf s) (allOf s) (ref s) (defs s)
    (definitions s) (default s) (description s) (format s) (minItems s)
    (nullable s).

Definition set_additionalProperties (v : bool) (s : JsonSchema) : JsonSchema :=
  mkJsonSchema (type s) (properties s) (required s) (Some v)
    (items s) (enum s) (const s) (anyOf s) (allOf s) (ref s) (defs s)
    (definitions s) (default s) (description s) (format s) (minItems s)
    (nullable s).

Definition set_items (v : JsonSchema) (s : JsonSchema) : JsonSchema :=
  mkJsonSchema (type s) (properties s) (required s) (additionalProperties s)
    (Some v) (enum s) (const s) (anyOf s) (allOf s) (ref s) (defs s)
    (definitions s) (default s) (description s) (format s) (minItems s)
    (nullable s).

Definition set_enum (v : list JSValue) (s : JsonSchema) : JsonSchema :=
  mkJsonSchema (type s) (properties s) (required s) (additionalProperties s)
    (items s) (Some v) (const s) (anyOf s) (allOf s) (ref s) (defs s)
    (definitions s) (default s) (description s) (format s) (minItems s)
    (nullable s).

Definition set_const (v : JSValue) (s : JsonSchema) : JsonSchema :=
  mkJsonSchema (type s) (properties s) (required s) (additionalProperties s)
    (items s) (enum s) (Some v) (anyOf s) (allOf s) (ref s) (defs s)
    (definitions s) (default s) (description s) (format s) (minItems s)
    (nullable s).

Definition set_anyOf (v : list JsonSchema) (s : JsonSchema) : JsonSchema :=
  mkJsonSchema (type s) (properties s) (required s) (additionalProperties s)
    (items s) (enum s) (const s) (Some v) (allOf s) (ref s) (defs s)
    (definitions s) (default s) (description s) (format s) (minItems s)
    (nullable s).

Definition set_allOf (v : list JsonSchema) (s : JsonSchema) : JsonSchema :=
  mkJsonSchema (type s) (properties s) (required s) (additionalProperties s)
    (items s) (enum s) (const s) (anyOf s) (Some v) (ref s) (defs s)
    (definitions s) (default s) (description s) (format s) (minItems s)
    (nullable s).

Definition set_default (v : JSValue) (s : JsonSchema) : JsonSchema :=
  mkJsonSchema (type s) (properties s) (required s) (additionalProperties s)
    (items s) (enum s) (const s) (anyOf s) (allOf s) (ref s) (defs s)
    (definitions s) (Some v) (description s) (format s) (minItems s)
    (nullable s).

Definition set_description (v : string) (s : JsonSchema) : JsonSchema :=
  mkJsonSchema (type s) (properties s) (required s) (additionalProperties s)
    (items s) (enum s) (const s) (anyOf s) (allOf s) (ref s) (defs s)
    (definitions s) (default s) (Some v) (format s) (minItems s)
    (nullable s).

Definition set_format (v : string) (s : JsonSchema) : JsonSchema :=
  mkJsonSchema (type s) (properties s) (required s) (additionalProperties s)
    (items s) (enum s) (const s) (anyOf s) (allOf s) (ref s) (defs s)
    (definitions s) (default s) (description s) (Some v) (minItems s)
    (nullable s).

Definition set_minItems (v : Z) (s : JsonSchema) : JsonSchema :=
  mkJsonSchema (type s) (properties s) (required s) (additionalProperties s)
    (items s) (enum s) (const s) (anyOf s) (allOf s) (ref s) (defs s)
    (definitions s) (default s) (description s) (format s) (Some v)
    (nullable s).

(** ** The source language: Zod schemas

    A schema object is its [_def]: the optional [description] every schema
    carries, and the [typeName] with the fields of that variant.  A [z.lazy]
    schema holds a getter; getters are named by a number and an environment
    [getters] gives the schema each one returns, so that a schema may refer
    to itself as it can in JavaScript. *)

Record ZodStringCheck : Type := mkCheck {
  kind : string;
  version : option string
}.

Inductive ZodType : Type :=
| Zod (description_ : option string) (def : ZodDef)
with ZodDef : Type :=
| ZodString (checks : list ZodStringCheck)
| ZodNumber
| ZodBigInt
| ZodBoolean
| ZodNull
| ZodUndefined
| ZodLiteral (value : JSValue)
| ZodEnum (values : list string)
| ZodNativeEnum (values : list (string * JSValue))
| ZodArray (type_ : ZodType) (minLength : option Z)
| ZodObject (shape : list (string * ZodType))
| ZodUnion (options : list ZodType)
| ZodDiscriminatedUnion (discriminator : string) (options : list ZodType)
| ZodIntersection (left_ right_ : ZodType)
| ZodTuple (items_ : list ZodType)
| ZodRecord (keyType valueType : ZodType)
| ZodOptional (innerType : ZodType)
| ZodNullable (innerType : ZodType)
| ZodDefault (innerType : ZodType) (defaultValue : JSValue)
| ZodEffects (schema : ZodType)
| ZodLazy (getter : nat)
| ZodAny
| ZodUnknown
| ZodNever
| ZodVoid
| ZodDate
| ZodBranded (type_ : ZodType)
| ZodCatch (innerType : ZodType)
| ZodPipeline (in_ out : ZodType)
| ZodReadonly (innerType : ZodType)
| ZodOther (typeName : string).

(** [schema._def] and [schema._def.description]. *)
Definition _def (schema : ZodType) : ZodDef :=
  match schema with Zod _ d => d end.

Definition _description (schema : ZodType) : option string :=
  match schema with Zod d _ => d end.

(** ** The compiler *)

Definition Definitions : Type := list (string * JsonSchema).

(** Sequencing of calls that may not return. *)
Definition bind {A B : Type} (m : option A) (k : A -> option B) : option B :=
  match m with
  | Some a => k a
  | None => None
  end.

Notation "x <- m ;; k" := (bind m (fun x => k))
  (at level 61, m at next level, right associativity).

(** [xs.map(f)] for an [f] that may not return. *)
Fixpoint mapM {A B : Type} (f : A -> option B) (xs : list A)
  : option (list B) :=
  match xs with
  | [] => Some []
  | x :: rest =>
      y <- f x ;;
      ys <- mapM f rest ;;
      Some (y :: ys)
  end.

Definition processString (checks : list ZodStringCheck) : JsonSchema :=
  fold_left
    (fun result check =>
       if String.eqb (kind check) "email" then set_format "email" result
       else if String.eqb (kind check) "url" then set_format "uri" result
       else if String.eqb (kind check) "uuid" then set_format "uuid" result
       else if String.eqb (kind check) "datetime"
            then set_format "date-time" result
       else if String.eqb (kind check) "date" then set_format "date" result
       else if String.eqb (kind check) "time" then set_format "time" result
       else if String.eqb (kind check) "ip"
            then set_format
                   (match version check with
                    | Some "v6" => "ipv6"
                    | _ => "ipv4"
                    end) result
       else result)
    checks
    (set_type "string" emptySchema).

Definition processLiteral (value : JSValue) : JsonSchema :=
  set_const value emptySchema.

Definition processEnum (values : list string) : JsonSchema :=
  set_enum (map JSString values) emptySchema.

Definition processNativeEnum (enumObj : list (string * JSValue)) : JsonSchema :=
  let values :=
    filter (fun val => String.eqb (typeof val) "string"
                       || String.eqb (typeof val) "number")
           (Object_values enumObj) in
  set_enum values emptySchema.

Definition isOptional (schema : ZodType) : bool :=
  match _def schema with
  | ZodOptional _ => true
  | ZodDefault _ _ => true
  | ZodNullable _ => false
  | _ => false
  end.

(** [properties[key] = compiled], followed by
    [if (zodValue._def.description) properties[key].description = ...]:
    the value the property holds after both statements. *)
Definition attachDescription (zodValue : ZodType) (compiled : JsonSchema)
  : JsonSchema :=
  match _description zodValue with
  | Some d => if truthy (Some d) then set_description d compiled else compiled
  | None => compiled
  end.

(** The helpers that recurse take the recursive call as [compile]. *)
Section Helpers.

Variable compile : ZodType -> Definitions -> option JsonSchema.

Definition processArray (type_ : ZodType) (minLength : option Z)
           (definitions : Definitions) : option JsonSchema :=
  compiledItems <- compile type_ definitions ;;
  let result := set_items compiledItems (set_type "array" emptySchema) in
  Some (match minLength with
        | Some n => if (n =? 0)%Z || (n =? 1)%Z
                    then set_minItems n result
                    else result
        | None => result
        end).

(** The body of the [for ... of Object.entries(shape)] loop, threading
    [properties] and [required]. *)
Fixpoint processObject_loop (entries : list (string * ZodType))
         (definitions : Definitions)
         (properties_ : list (string * JsonSchema)) (required_ : list string)
  : option (list (string * JsonSchema) * list string) :=
  match entries with
  | [] => Some (properties_, required_)
  | (key, zodValue) :: rest =>
      compiled <- compile zodValue definitions ;;
      let properties_ :=
        assign key (attachDescription zodValue compiled) properties_ in
      let required_ :=
        if negb (isOptional zodValue) then required_ ++ [key]
        else required_ in
      processObject_loop rest definitions properties_ required_
  end.

Definition processObject (shape : list (string * ZodType))
           (definitions : Definitions) : option JsonSchema :=
  state <- processObject_loop shape definitions [] [] ;;
  let '(properties_, required_) := state in
  Some (set_additionalProperties false
          (set_required (if (0 <? length required_)%nat
                         then Some required_ else None)
             (set_properties properties_
                (set_type "object" emptySchema)))).

Definition processUnion (options : list ZodType) (definitions : Definitions)
  : option JsonSchema :=
  options_ <- mapM (fun opt => compile opt definitions) options ;;
  Some (set_anyOf options_ emptySchema).

Definition processDiscriminatedUnion (options : list ZodType)
           (definitions : Definitions) : option JsonSchema :=
  options_ <- mapM (fun opt => compile opt definitions) options ;;
  Some (set_anyOf options_ emptySchema).

Definition processIntersection (l r : ZodType)
           (definitions : Definitions) : option JsonSchema :=
  left_ <- compile l definitions ;;
  right_ <- compile r definitions ;;
  Some (set_allOf [left_; right_] emptySchema).

Definition processTuple (items_ : list ZodType) (definitions : Definitions)
  : option JsonSchema :=
  compiledItems <- mapM (fun item => compile item definitions) items_ ;;
  Some (set_items
          (match compiledItems with
           | [single] => single
           | _ => set_anyOf compiledItems emptySchema
           end)
          (set_type "array" emptySchema)).

Definition processRecord (_schema : ZodDef) (_definitions : Definitions)
  : option JsonSchema :=
  Some (set_additionalProperties false (set_type "object" emptySchema)).

Definition processOptional (innerType : ZodType) (definitions : Definitions)
  : option JsonSchema :=
  compile innerType definitions.

Definition processNullable (innerType : ZodType) (definitions : Definitions)
  : option JsonSchema :=
  innerSchema <- compile innerType definitions ;;
  Some (set_anyOf [innerSchema; set_type "null" emptySchema] emptySchema).

Definition processDefault (innerType : ZodType) (defaultValue : JSValue)
           (definitions : Definitions) : option JsonSchema :=
  innerSchema <- compile innerType definitions ;;
  Some (set_default defaultValue innerSchema).

End Helpers.

Section Compiler.

(** What each [z.lazy] getter returns when it is called. *)
Variable getters : nat -> ZodType.

(** The [switch] of [processZodType] over [schema._def.typeName], with
    the recursive call as [compile]; the [console.warn] of the default arm
    is not part of the returned value and is left out. *)
Definition processZodType_switch
           (compile : ZodType -> Definitions -> option JsonSchema)
           (schema : ZodType) (definitions : Definitions)
  : option JsonSchema :=
  match _def schema with
  | ZodString checks => Some (processString checks)
  | ZodNumber => Some (set_type "number" emptySchema)
  | ZodBigInt => Some (set_type "integer" emptySchema)
  | ZodBoolean => Some (set_type "boolean" emptySchema)
  | ZodNull => Some (set_type "null" emptySchema)
  | ZodUndefined => Some (set_type "null" emptySchema)
  | ZodLiteral value => Some (processLiteral value)
  | ZodEnum values => Some (processEnum values)
  | ZodNativeEnum values => Some (processNativeEnum values)
  | ZodArray type_ minLength =>
      processArray compile type_ minLength definitions
  | ZodObject shape => processObject compile shape definitions
  | ZodUnion options => processUnion compile options definitions
  | ZodDiscriminatedUnion _ options =>
      processDiscriminatedUnion compile options definitions
  | ZodIntersection l r => processIntersection compile l r definitions
  | ZodTuple items_ => processTuple compile items_ definitions
  | ZodRecord _ _ => processRecord (_def schema) definitions
  | ZodOptional innerType => processOptional compile innerType definitions
  | ZodNullable innerType => processNullable compile innerType definitions
  | ZodDefault innerType defaultValue =>
      processDefault compile innerType defaultValue definitions
  | ZodEffects inner => compile inner definitions
  | ZodLazy getter => compile (getters getter) definitions
  | ZodAny => Some emptySchema
  | ZodUnknown => Some emptySchema
  | ZodNever => Some (set_type "null" emptySchema)
  | ZodVoid => Some (set_type "null" emptySchema)
  | ZodDate => Some (set_format "date-time" (set_type "string" emptySchema))
  | ZodBranded type_ => compile type_ definitions
  | ZodCatch innerType => compile innerType definitions
  | ZodPipeline _ out => compile out definitions
  | ZodReadonly innerType => compile innerType definitions
  | ZodOther _ => Some emptySchema
  end.

(** [processZodType], with [fuel] bounding the depth of nested calls. *)
Fixpoint processZodType (fuel : nat) (schema : ZodType)
         (definitions : Definitions) {struct fuel} : option JsonSchema :=
  match fuel with
  | O => None
  | S fuel => processZodType_switch (processZodType fuel) schema definitions
  end.

Definition zodToJsonSchema (fuel : nat) (schema : ZodType)
           (definitions : Definitions) : option JsonSchema :=
  processZodType fuel schema definitions.

(** The value [createAnthropicOutputFormat] returns. *)
Record OutputFormat : Type := mkOutputFormat {
  of_type : string;
  of_schema : JsonSchema
}.

Definition createAnthropicOutputFormat (fuel : nat) (schema : ZodType)
           (_name : option string) : option OutputFormat :=
  jsonSchema <- zodToJsonSchema fuel schema [] ;;
  if negb (match type jsonSchema with
           | Some t => String.eqb t "object"
           | None => false
           end)
  then Some (mkOutputFormat "json_schema"
               (set_additionalProperties false
                  (set_required (Some ["result"])
                     (set_properties [("result", jsonSchema)]
                        (set_type "object" emptySchema)))))
  else Some (mkOutputFormat "json_schema" jsonSchema).

End Compiler.

(** ** Nodes of a compiled schema *)

(** The schemas directly below a node. *)
Definition optionalList {A : Type} (o : option (list A)) : list A :=
  match o with
  | Some l => l
  | None => []
  end.

Definition childSchemas (s : JsonSchema) : list JsonSchema :=
  Object_values (optionalList (properties s))
  ++ match items s with Some i => [i] | None => [] end
  ++ optionalList (anyOf s)
  ++ optionalList (allOf s)
  ++ Object_values (optionalList (defs s))
  ++ Object_values (optionalList (definitions s)).

(** [nodeOf n s]: [n] is [s] or lies below it, at any depth. *)
Inductive nodeOf : JsonSchema -> JsonSchema -> Prop :=
| node_root : forall s, nodeOf s s
| node_below : forall n c s,
    In c (childSchemas s) -> nodeOf n c -> nodeOf n s.

(** Every object node is closed against further properties. *)
Definition objectsClosed (s : JsonSchema) : Prop :=
  forall n, nodeOf n s ->
            type n = Some "object" -> additionalProperties n = Some false.

(** ** Unfolding of schemas through their getters *)

(** The schemas [processZodType] calls itself on for a node. *)
Definition visited (getters : nat -> ZodType) (d : ZodDef) : list ZodType :=
  match d with
  | ZodArray type_ _ => [type_]
  | ZodObject shape => Object_values shape
  | ZodUnion options => options
  | ZodDiscriminatedUnion _ options => options
  | ZodIntersection l r => [l; r]
  | ZodTuple items_ => items_
  | ZodOptional innerType => [innerType]
  | ZodNullable innerType => [innerType]
  | ZodDefault innerType _ => [innerType]
  | ZodEffects inner => [inner]
  | ZodLazy getter => [getters getter]
  | ZodBranded type_ => [type_]
  | ZodCatch innerType => [innerType]
  | ZodPipeline _ out => [out]
  | ZodReadonly innerType => [innerType]
  | _ => []
  end.

(** A schema unfolds finitely when following the visited schemas, getters
    included, always comes to an end. *)
Inductive finiteUnfolding (getters : nat -> ZodType) : ZodType -> Prop :=
| finite_node : forall schema,
    (forall c, In c (visited getters (_def schema)) ->
               finiteUnfolding getters c) ->
    finiteUnfolding getters schema.

(** No [z.lazy] anywhere in the schema as written. *)
Fixpoint lazyFree (schema : ZodType) {struct schema} : bool :=
  match schema with
  | Zod _ d =>
      match d with
      | ZodLazy _ => false
      | ZodArray type_ _ => lazyFree type_
      | ZodObject shape => forallb (fun kv => lazyFree (snd kv)) shape
      | ZodUnion options => forallb lazyFree options
      | ZodDiscriminatedUnion _ options => forallb lazyFree options
      | ZodIntersection l r => lazyFree l && lazyFree r
      | ZodTuple items_ => forallb lazyFree items_
      | ZodRecord k v => lazyFree k && lazyFree v
      | ZodOptional innerType => lazyFree innerType
      | ZodNullable innerType => lazyFree innerType
      | ZodDefault innerType _ => lazyFree innerType
      | ZodEffects inner => lazyFree inner
      | ZodBranded type_ => lazyFree type_
      | ZodCatch innerType => lazyFree innerType
      | ZodPipeline i o => lazyFree i && lazyFree o
      | ZodReadonly innerType => lazyFree innerType
      | _ => true
      end
  end.

(** Every [z.lazy] reference written in the schema lies below an optional
    wrapper, or in an arm of a union that has an arm without any reference
    (the base case).  [under] tells whether such an arm has been entered. *)
Fixpoint lazyGuarded (under : bool) (schema : ZodType) {struct schema} : bool :=
  match schema with
  | Zod _ d =>
      match d with
      | ZodLazy _ => under
      | ZodOptional innerType => lazyGuarded true innerType
      | ZodUnion options =>
          forallb (lazyGuarded (under || existsb lazyFree options)) options
      | ZodDiscriminatedUnion _ options =>
          forallb (lazyGuarded (under || existsb lazyFree options)) options
      | ZodArray type_ _ => lazyGuarded under type_
      | ZodObject shape => forallb (fun kv => lazyGuarded under (snd kv)) shape
      | ZodIntersection l r => lazyGuarded under l && lazyGuarded under r
      | ZodTuple items_ => forallb (lazyGuarded under) items_
      | ZodRecord k v => lazyGuarded under k && lazyGuarded under v
      | ZodNullable innerType => lazyGuarded under innerType
      | ZodDefault innerType _ => lazyGuarded under innerType
      | ZodEffects inner => lazyGuarded under inner
      | ZodBranded type_ => lazyGuarded under type_
      | ZodCatch innerType => lazyGuarded under innerType
      | ZodPipeline i o => lazyGuarded under i && lazyGuarded under o
      | ZodReadonly innerType => lazyGuarded under innerType
      | _ => true
      end
  end.

(** The self-references of a schema are terminated in that sense when the
    body every getter returns has all its references guarded. *)
Definition selfReferenceTerminated (getters : nat -> ZodType) : Prop :=
  forall g, lazyGuarded false (getters g) = true.

(** ** Tool invocation

    [executeToolWithDefinition] runs three callbacks of a tool definition.
    A callback acts on the world outside and either returns or throws; for
    the implementation, which returns a promise that the function awaits,
    returning stands for the promise resolving and throwing for its
    rejection (or for a throw before a promise exists: both reach the caller
    of the [async] function as a rejection).  The run keeps a log of what
    was called and how the implementation settled, in order of time. *)

Section ToolInvocation.

Variables TArgs TResult Err World : Type.

Inductive Completion (A : Type) : Type :=
| Returned (a : A)
| Threw (e : Err).

Arguments Returned {A} a.
Arguments Threw {A} e.

Definition Callback (A : Type) : Type := World -> World * Completion A.

(** The fields of [ToolDefinition] the function uses; the
    [ChatCompletionFunctionTool] part (name, description, parameters) is
    not touched by it. *)
Record ToolDefinition : Type := mkToolDefinition {
  implementation : TArgs -> Callback TResult;
  onStart : option (TArgs -> Callback unit);
  onComplete : option (TArgs -> TResult -> Callback unit)
}.

Inductive Event : Type :=
| OnStartCalled (args : TArgs)
| ImplementationCalled (args : TArgs)
| ImplementationResolved (result : TResult)
| ImplementationRejected (e : Err)
| OnCompleteCalled (args : TArgs) (result : TResult).

Record Run : Type := mkRun {
  world : World;
  log : list Event
}.

(** Computations that change the run and may throw. *)
Definition Exec (A : Type) : Type := Run -> Run * Completion A.

Definition pure {A : Type} (a : A) : Exec A :=
  fun r => (r, Returned a).

Definition andThen {A B : Type} (m : Exec A) (k : A -> Exec B) : Exec B :=
  fun r =>
    match m r with
    | (r', Returned a) => k a r'
    | (r', Threw e) => (r', Threw e)
    end.

Definition record (ev : Event) : Exec unit :=
  fun r => (mkRun (world r) (log r ++ [ev]), Returned tt).

Definition call {A : Type} (ev : Event) (f : Callback A) : Exec A :=
  andThen (record ev)
          (fun _ r => let (w, c) := f (world r) in (mkRun w (log r), c)).

(** [await p]: the promise settles, and a rejection is thrown. *)
Definition await (p : Exec TResult) : Exec TResult :=
  fun r =>
    match p r with
    | (r', Returned result) =>
        (mkRun (world r') (log r' ++ [ImplementationResolved result]),
         Returned result)
    | (r', Threw e) =>
        (mkRun (world r') (log r' ++ [ImplementationRejected e]), Threw e)
    end.

Definition executeToolWithDefinition (toolDef : ToolDefinition)
           (args : TArgs) : Exec TResult :=
  andThen (match onStart toolDef with
           | Some hook => call (OnStartCalled args) (hook args)
           | None => pure tt
           end)
    (fun _ =>
       andThen (await (call (ImplementationCalled args)
                            (implementation toolDef args)))
         (fun result =>
            andThen (match onComplete toolDef with
                     | Some hook =>
                         call (OnCompleteCalled args result)
                              (hook args result)
                     | None => pure tt
                     end)
              (fun _ => pure result))).

(** What the two hooks add to the log when they are present. *)
Definition startEvents (toolDef : ToolDefinition) (args : TArgs) : list Event :=
  match onStart toolDef with
  | Some _ => [OnStartCalled args]
  | None => []
  end.

Definition completeEvents (toolDef : ToolDefinition) (args : TArgs)
           (result : TResult) : list Event :=
  match onComplete toolDef with
  | Some _ => [OnCompleteCalled args result]
  | None => []
  end.

(** The three ways a run can go. *)
Inductive Course (toolDef : ToolDefinition) (args : TArgs)
  : list Event -> Completion TResult -> Prop :=
| course_start_threw : forall e,
    onStart toolDef <> None ->
    Course toolDef args [OnStartCalled args] (Threw e)
| course_rejected : forall e,
    Course toolDef args
      (startEvents toolDef args
         ++ [ImplementationCalled args; ImplementationRejected e])
      (Threw e)
| course_resolved : forall result out,
    (out = Returned result \/
     onComplete toolDef <> None /\ exists e, out = Threw e) ->
    Course toolDef args
      (startEvents toolDef args
         ++ [ImplementationCalled args; ImplementationResolved result]
         ++ completeEvents toolDef args result)
      out.

(** [ev1] occurs in [l] strictly before an occurrence of [ev2]. *)
Definition occursBefore (ev1 ev2 : Event) (l : list Event) : Prop :=
  exists pre post, l = pre ++ ev2 :: post /\ In ev1 pre.

End ToolInvocation.

Arguments Returned {Err A} a.
Arguments Threw {Err A} e.
Arguments mkToolDefinition {TArgs TResult Err World}.
Arguments implementation {TArgs TResult Err World}.
Arguments onStart {TArgs TResult Err World}.
Arguments onComplete {TArgs TResult Err World}.
Arguments OnStartCalled {TArgs TResult Err} args.
Arguments ImplementationCalled {TArgs TResult Err} args.
Arguments ImplementationResolved {TArgs TResult Err} result.
Arguments ImplementationRejected {TArgs TResult Err} e.
Arguments OnCompleteCalled {TArgs TResult Err} args result.
Arguments mkRun {TArgs TResult Err World}.
Arguments world {TArgs TResult Err World}.
Arguments log {TArgs TResult Err World}.
Arguments executeToolWithDefinition {TArgs TResult Err World}.
Arguments occursBefore {TArgs TResult Err}.
Arguments startEvents {TArgs TResult Err World}.
Arguments completeEvents {TArgs TResult Err World}.
Arguments Course {TArgs TResult Err World}.
Arguments course_start_threw {TArgs TResult Err World}.
Arguments course_rejected {TArgs TResult Err World}.
Arguments course_resolved {TArgs TResult Err World}.

(** ** Schemas and tools used as examples, and derived notions *)

Definition zString : ZodType := Zod None (ZodString []).
Definition zNumber : ZodType := Zod None ZodNumber.
Definition zBoolean : ZodType := Zod None ZodBoolean.
Definition zOptional (t : ZodType) : ZodType := Zod None (ZodOptional t).
Definition zNullable (t : ZodType) : ZodType := Zod None (ZodNullable t).
Definition zDescribe (d : string) (t : ZodType) : ZodType :=
  Zod (Some d) (_def t).

(** Getters of a program without [z.lazy]. *)
Definition noGetters : nat -> ZodType := fun _ => Zod None ZodNever.

(** [{a: string, b: optional number, c: nullable boolean}]. *)
Definition plainObject : ZodType :=
  Zod None (ZodObject [("a", zString);
                       ("b", zOptional zNumber);
                       ("c", zNullable zBoolean)]).


(** [z.object({['__proto__']: z.string()})]. *)
Definition protoField : ZodType :=
  Zod None (ZodObject [("__proto__", zString); ("a", zNumber)]).

(** The keys [processObject] pushes on [required]: those of the fields that
    are not optional, in the order of the entries. *)
Definition requiredKeys (entries : list (string * ZodType)) : list string :=
  Object_keys (filter (fun kv => negb (isOptional (snd kv))) entries).

(** [compiles getters schema definitions r]: the call
    [processZodType(schema, definitions)] returns [r]. *)
Definition compiles (getters : nat -> ZodType) (schema : ZodType)
           (definitions : Definitions) (r : JsonSchema) : Prop :=
  exists fuel, processZodType getters fuel schema definitions = Some r.

(** A schema without [z.lazy] getters to follow, three levels deep. *)
Definition nestedRecords : ZodType :=
  Zod None (ZodObject
    [("tags", Zod None (ZodRecord zString zString));
     ("inner", Zod (Some "nested") (ZodObject
        [("list", Zod None (ZodArray (Zod None (ZodRecord zString zNumber))
                                     (Some 1%Z)))]))]).

(** The enum object TypeScript emits for [enum Direction { Up, Down }]:
    the reverse mappings [0 -> "Up"], [1 -> "Down"] and the members
    [Up -> 0], [Down -> 1], in property order. *)
Definition Direction : list (string * JSValue) :=
  [("0", JSString "Up"); ("1", JSString "Down");
   ("Up", JSNumber 0); ("Down", JSNumber 1)].

(** [{type: "object", properties: {result: root}, required: ["result"],
     additionalProperties: false}]. *)
Definition wrappedResult (root : JsonSchema) : JsonSchema :=
  mkJsonSchema (Some "object") (Some [("result", root)]) (Some ["result"])
    (Some false) None None None None None None None None None None None None
    None.

(** [{type: "object", properties, required: required.length > 0 ? required
     : undefined, additionalProperties: false}]. *)
Definition objectSchema (properties_ : list (string * JsonSchema))
           (required_ : list string) : JsonSchema :=
  mkJsonSchema (Some "object") (Some properties_)
    (match required_ with [] => None | _ :: _ => Some required_ end)
    (Some false) None None None None None None None None None None None None
    None.


(** [{anyOf: [inner, {type: "null"}]}]. *)
Definition nullableOf (inner : JsonSchema) : JsonSchema :=
  set_anyOf [inner; set_type "null" emptySchema] emptySchema.

(** [{a: z.string().optional(), b: z.number().default(7)}]. *)
Definition optionalFields : ZodType :=
  Zod None (ZodObject
    [("a", zOptional zString);
     ("b", Zod None (ZodDefault zNumber (JSNumber 7)))]).

(** [const Node = z.lazy(() => z.object({value: z.string(),
      next: Node.optional(),
      children: z.union([z.null(), z.array(Node)])}))]:
    the getter numbered 0 returns the object, in which [Node] is
    [ZodLazy 0]. *)
Definition Node : ZodType := Zod None (ZodLazy 0).

Definition NodeBody : ZodType :=
  Zod None (ZodObject
    [("value", zString);
     ("next", zOptional Node);
     ("children", Zod None (ZodUnion [Zod None ZodNull;
                                      Zod None (ZodArray Node None)]))]).

Definition nodeGetters : nat -> ZodType := fun _ => NodeBody.

(** Getters that return a schema without further references. *)
Definition onceGetters : nat -> ZodType :=
  fun _ => Zod None (ZodArray zString (Some 0%Z)).

(** A tool over numbers that adds one; each callback writes its name in
    the world, a journal. *)
Definition journalTool : ToolDefinition nat nat string (list string) :=
  mkToolDefinition
    (fun args w => (w ++ ["implementation"], Returned (args + 1)))
    (Some (fun _ w => (w ++ ["onStart"], Returned tt)))
    (Some (fun _ _ w => (w ++ ["onComplete"], Returned tt))).

(** A tool over numbers whose implementation adds one and whose [onStart]
    hook throws. *)
Definition failingStart : ToolDefinition nat nat string unit :=
  mkToolDefinition
    (fun args w => (w, Returned (args + 1)))
    (Some (fun _ w => (w, Threw "render failed")))
    None.

(** ** What a compiled node may hold *)

(** The [format] values [processString] and the date arm write. *)
Definition emittedFormats : list string :=
  ["email"; "uri"; "uuid"; "date-time"; "date"; "time"; "ipv6"; "ipv4"].

(** Fields of [JsonSchema] the compiler leaves alone. *)
Definition noReferences (n : JsonSchema) : Prop :=
  ref n = None /\ defs n = None /\ definitions n = None /\ nullable n = None.

(** [minItems] is absent, or 0 or 1 on an array. *)
Definition minItemsSupported (n : JsonSchema) : Prop :=
  minItems n = None \/
  (type n = Some "array" /\
   (minItems n = Some 0%Z \/ minItems n = Some 1%Z)).

(** A [format] is one of the emitted ones, on a string. *)
Definition formatOnString (n : JsonSchema) : Prop :=
  forall f, format n = Some f ->
            type n = Some "string" /\ In f emittedFormats.

(** A [required] list is not empty and, the key [__proto__] apart, names
    declared properties only. *)
Definition requiredDeclared (n : JsonSchema) : Prop :=
  forall l, required n = Some l ->
            l <> [] /\
            exists props, properties n = Some props /\
                          forall k, In k l -> k <> "__proto__" ->
                                    lookup k props <> None.

Definition nodeWellFormed (n : JsonSchema) : Prop :=
  noReferences n /\ minItemsSupported n /\ formatOnString n /\
  requiredDeclared n.

(** [P] holds of every node of [s]. *)
Definition allNodes (P : JsonSchema -> Prop) (s : JsonSchema) : Prop :=
  forall n, nodeOf n s -> P n.

(** ** Nesting depth of a schema as written *)

(** The number of schema objects on the longest path from the schema down,
    not following getters. *)
Fixpoint depth (schema : ZodType) {struct schema} : nat :=
  match schema with
  | Zod _ d =>
      S (match d with
         | ZodArray type_ _ => depth type_
         | ZodObject shape => list_max (map (fun kv => depth (snd kv)) shape)
         | ZodUnion options => list_max (map depth options)
         | ZodDiscriminatedUnion _ options => list_max (map depth options)
         | ZodIntersection l r => Nat.max (depth l) (depth r)
         | ZodTuple items_ => list_max (map depth items_)
         | ZodRecord k v => Nat.max (depth k) (depth v)
         | ZodOptional innerType => depth innerType
         | ZodNullable innerType => depth innerType
         | ZodDefault innerType _ => depth innerType
         | ZodEffects inner => depth inner
         | ZodBranded type_ => depth type_
         | ZodCatch innerType => depth innerType
         | ZodPipeline i o => Nat.max (depth i) (depth o)
         | ZodReadonly innerType => depth innerType
         | _ => 0
         end)
  end.

(** ** Wrappers the compiler looks through *)

(** The schema a wrapper is compiled as: [processOptional] and the arms of
    [ZodEffects], [ZodLazy], [ZodBranded], [ZodCatch], [ZodPipeline] and
    [ZodReadonly] return the result of one recursive call unchanged. *)
Definition compiledAs (getters : nat -> ZodType) (d : ZodDef)
  : option ZodType :=
  match d with
  | ZodOptional innerType => Some innerType
  | ZodEffects inner => Some inner
  | ZodLazy getter => Some (getters getter)
  | ZodBranded type_ => Some type_
  | ZodCatch innerType => Some innerType
  | ZodPipeline _ out => Some out
  | ZodReadonly innerType => Some innerType
  | _ => None
  end.

(** ** String checks *)

(** The format a check of [processString] writes, if its kind is one of the
    cases of the [switch]. *)
Definition formatOf (check : ZodStringCheck) : option string :=
  if String.eqb (kind check) "email" then Some "email"
  else if String.eqb (kind check) "url" then Some "uri"
  else if String.eqb (kind check) "uuid" then Some "uuid"
  else if String.eqb (kind check) "datetime" then Some "date-time"
  else if String.eqb (kind check) "date" then Some "date"
  else if String.eqb (kind check) "time" then Some "time"
  else if String.eqb (kind check) "ip"
       then Some (match version check with
                  | Some "v6" => "ipv6"
                  | _ => "ipv4"
                  end)
  else None.

(** ** Building the tools of a session

    [buildDebugTools] and [buildTools] of [customTools.ts].  The tools the
    [create...Tool] functions return are not part of these sources; the
    array literal of each function is taken as a list of tools that is
    given.  A tool result is a JavaScript value, and [JSON.stringify] is the
    runtime's. *)

Section BuildTools.

Variables TArgs Err World : Type.
Variable JSON_stringify : JSValue -> string.

(** The argument of a [RenderToolCall]. *)
Record RenderArgs : Type := mkRenderArgs {
  render_name : string;
  render_status : string;
  render_args : TArgs;
  render_result : option string
}.

(** A tool: [function.name] and the fields [executeToolWithDefinition]
    uses. *)
Record Tool : Type := mkTool {
  function_name : string;
  toolDef : ToolDefinition TArgs JSValue Err World
}.

Definition RenderToolCall : Type := RenderArgs -> Callback Err World unit.

(** The object the [map] of [buildDebugTools] builds from [td]. *)
Definition withRenderer (toolRenderer : RenderToolCall) (td : Tool) : Tool :=
  mkTool (function_name td)
    (mkToolDefinition
       (implementation (toolDef td))
       (Some (fun args =>
                toolRenderer
                  (mkRenderArgs (function_name td) "start" args None)))
       (Some (fun args result =>
                toolRenderer
                  (mkRenderArgs (function_name td) "success" args
                     (Some (if String.eqb (typeof result) "string"
                            then match result with
                                 | JSString s => s
                                 | _ => JSON_stringify result
                                 end
                            else JSON_stringify result)))))).

Definition buildDebugTools (tools : list Tool)
           (toolRenderer : option RenderToolCall) : list Tool :=
  match toolRenderer with
  | Some render => map (withRenderer render) tools
  | None => tools
  end.

End BuildTools.

Arguments mkRenderArgs {TArgs}.
Arguments render_name {TArgs}.
Arguments render_status {TArgs}.
Arguments render_args {TArgs}.
Arguments render_result {TArgs}.
Arguments mkTool {TArgs Err World}.
Arguments function_name {TArgs Err World}.
Arguments toolDef {TArgs Err World}.
Arguments withRenderer {TArgs Err World}.
Arguments buildDebugTools {TArgs Err World}.

Section BuildSessionTools.

Variables TArgs Err World : Type.

(** [error instanceof Error ? error.message : String(error)]. *)
Variable errorText : Err -> string.

(** A call of a logger method: which logger, the level, the message and
    the [error] field of the object passed with it. *)
Record LogEntry : Type := mkLogEntry {
  log_logger : string;
  log_level : string;
  log_message : string;
  log_error : option string
}.

Record Session : Type := mkSession {
  session_world : World;
  session_log : list LogEntry
}.

(** [mcpManager.initialize()] and [mcpManager.getAvailableToolNames()]. *)
Variable initialize : Callback Err World unit.
Variable getAvailableToolNames : Callback Err World (list string).

(** A logger method is taken to record its call and return. *)
Definition logTo (logger_ level message : string) (error : option string)
           (s : Session) : Session :=
  mkSession (session_world s)
            (session_log s ++ [mkLogEntry logger_ level message error]).

(** A message on [buildToolsLogger] and then the same on [logger]. *)
Definition logBoth (level message : string) (error : option string)
           (s : Session) : Session :=
  logTo "logger" level message error
        (logTo "buildTools" level message error s).

(** The [try] block: [inl] when it completes, [inr] with the error caught. *)
Definition initializeMcp (s : Session) : Session * (unit + Err) :=
  match initialize (session_world s) with
  | (w, Threw e) => (mkSession w (session_log s), inr e)
  | (w, Returned _) =>
      let s1 := logBoth "info" "MCP manager initialization completed" None
                        (mkSession w (session_log s)) in
      match getAvailableToolNames (session_world s1) with
      | (w', Threw e) => (mkSession w' (session_log s1), inr e)
      | (w', Returned availableTools) =>
          let s2 := mkSession w' (session_log s1) in
          (if (0 <? length availableTools)%nat
           then logBoth "info"
                  ("[MCP] Available MCP tools: "
                   ++ String.concat ", " availableTools) None s2
           else s2,
           inl tt)
      end
  end.

(** [buildTools]: the run and what it returns; [tools] is the array of the
    [return] statement. *)
Definition buildTools (tools : list (Tool TArgs Err World)) (s : Session)
  : Session * Completion Err (list (Tool TArgs Err World)) :=
  let s0 :=
    logTo "logger" "info" "Building tools and initializing MCP manager..." None
      (logTo "buildTools" "info" "========================================" None
         (logTo "buildTools" "info"
                "Building tools and initializing MCP manager..." None
            (logTo "buildTools" "info"
                   "========================================" None s))) in
  match initializeMcp s0 with
  | (s1, inl _) => (s1, Returned tools)
  | (s1, inr error) =>
      (logBoth "warn" "MCP manager initialization failed (non-critical)"
               (Some (errorText error)) s1,
       Returned tools)
  end.

End BuildSessionTools.

Arguments mkLogEntry _ _ _ _ : clear implicits.
Arguments mkSession {World}.
Arguments session_world {World}.
Arguments session_log {World}.
Arguments buildTools {TArgs Err World}.
Arguments initializeMcp {Err World}.

(** ** Strings of code units and regular expressions

    The domain service works on the characters of strings.  A JavaScript
    string is a list of UTF-16 code units, here numbers; the regular
    expressions of the sources have no flags, so they match code unit by
    code unit. *)

Definition units (s : string) : list nat :=
  map Ascii.nat_of_ascii (list_ascii_of_string s).

Inductive RegExp : Type :=
| Never
| Epsilon
| Class (member : nat -> bool)
| Seq (r1 r2 : RegExp)
| Alt (r1 r2 : RegExp)
| Star (r : RegExp).

(** Whether the expression matches the empty string. *)
Fixpoint matchesEmpty (r : RegExp) : bool :=
  match r with
  | Never => false
  | Epsilon => true
  | Class _ => false
  | Seq r1 r2 => matchesEmpty r1 && matchesEmpty r2
  | Alt r1 r2 => matchesEmpty r1 || matchesEmpty r2
  | Star _ => true
  end.

(** What is left to match after the code unit [c]. *)
Fixpoint after (c : nat) (r : RegExp) : RegExp :=
  match r with
  | Never => Never
  | Epsilon => Never
  | Class member => if member c then Epsilon else Never
  | Seq r1 r2 =>
      if matchesEmpty r1
      then Alt (Seq (after c r1) r2) (after c r2)
      else Seq (after c r1) r2
  | Alt r1 r2 => Alt (after c r1) (after c r2)
  | Star r0 => Seq (after c r0) (Star r0)
  end.

(** [/^r$/.test(s)]. *)
Definition regexTest (r : RegExp) (s : list nat) : bool :=
  matchesEmpty (fold_left (fun r c => after c r) s r).

(** The strings an expression stands for. *)
Inductive Matches : RegExp -> list nat -> Prop :=
| matches_epsilon : Matches Epsilon []
| matches_class : forall member c,
    member c = true -> Matches (Class member) [c]
| matches_seq : forall r1 r2 s1 s2,
    Matches r1 s1 -> Matches r2 s2 -> Matches (Seq r1 r2) (s1 ++ s2)
| matches_alt_left : forall r1 r2 s, Matches r1 s -> Matches (Alt r1 r2) s
| matches_alt_right : forall r1 r2 s, Matches r2 s -> Matches (Alt r1 r2) s
| matches_star_none : forall r, Matches (Star r) []
| matches_star_more : forall r s1 s2,
    Matches r s1 -> Matches (Star r) s2 -> Matches (Star r) (s1 ++ s2).

(** [r?], [r+], [r{2,}] and [r{0,n}]. *)
Definition Optional_ (r : RegExp) : RegExp := Alt Epsilon r.
Definition Plus (r : RegExp) : RegExp := Seq r (Star r).
Definition AtLeastTwo (r : RegExp) : RegExp := Seq r (Seq r (Star r)).

Fixpoint UpTo (n : nat) (r : RegExp) : RegExp :=
  match n with
  | O => Epsilon
  | S n' => Alt Epsilon (Seq r (UpTo n' r))
  end.

(** The classes [[a-z]], [[A-Z]], [[0-9]], [[a-z0-9]], [[a-z0-9-]] and the
    characters [.], [-], [_], [/]. *)
Definition isLower (c : nat) : bool := ((97 <=? c) && (c <=? 122))%nat.
Definition isUpper (c : nat) : bool := ((65 <=? c) && (c <=? 90))%nat.
Definition isDigit (c : nat) : bool := ((48 <=? c) && (c <=? 57))%nat.
Definition isLowerOrDigit (c : nat) : bool := isLower c || isDigit c.
Definition isLowerDigitOrHyphen (c : nat) : bool :=
  isLowerOrDigit c || (c =? 45)%nat.
Definition dot : nat := 46.
Definition slash : nat := 47.
Definition underscore : nat := 95.

(** [/^[a-z0-9]([a-z0-9-]{0,61}[a-z0-9])?(\.[a-z]{2,})+$/]. *)
Definition domainRegex : RegExp :=
  Seq (Class isLowerOrDigit)
      (Seq (Optional_ (Seq (UpTo 61 (Class isLowerDigitOrHyphen))
                           (Class isLowerOrDigit)))
           (Plus (Seq (Class (Nat.eqb dot)) (AtLeastTwo (Class isLower))))).

(** The shape of the strings of [domainRegex]: a first label of 1 to 63
    characters of [[a-z0-9-]] that begins and ends with one of [[a-z0-9]],
    followed by one or more labels of two or more letters, each after a
    dot. *)
Definition isFirstLabel (label : list nat) : Prop :=
  (exists c, label = [c] /\ isLowerOrDigit c = true) \/
  (exists a middle b,
      label = a :: middle ++ [b] /\
      isLowerOrDigit a = true /\ isLowerOrDigit b = true /\
      Forall (fun c => isLowerDigitOrHyphen c = true) middle /\
      length middle <= 61).

Definition isLetterLabel (label : list nat) : Prop :=
  2 <= length label /\ Forall (fun c => isLower c = true) label.

Definition dotted (labels : list (list nat)) : list nat :=
  concat (map (cons dot) labels).

(** [s.replace(/^prefix/, '')] for a literal prefix. *)
Fixpoint stripPrefix (prefix s : list nat) : option (list nat) :=
  match prefix, s with
  | [], _ => Some s
  | p :: prefix', c :: s' =>
      if (p =? c)%nat then stripPrefix prefix' s' else None
  | _ :: _, [] => None
  end.

Definition removePrefix (prefix s : list nat) : list nat :=
  match stripPrefix prefix s with
  | Some rest => rest
  | None => s
  end.

(** [s.split('/')[0]]. *)
Fixpoint beforeSlash (s : list nat) : list nat :=
  match s with
  | [] => []
  | c :: s' => if (c =? slash)%nat then [] else c :: beforeSlash s'
  end.

(** [s] read as an address: an optional protocol [http://] or [https://],
    an optional [www.], a host name without slash, and a rest that is empty
    or begins with a slash.  A part counted as absent is really absent:
    what follows does not begin with it. *)
Definition hostDecomposition (s protocol www host rest : list nat) : Prop :=
  s = protocol ++ www ++ host ++ rest /\
  (protocol = units "https://" \/ protocol = units "http://" \/
   (protocol = [] /\
    forall t, www ++ host ++ rest <> units "https://" ++ t /\
              www ++ host ++ rest <> units "http://" ++ t)) /\
  (www = units "www." \/
   (www = [] /\ forall t, host ++ rest <> units "www." ++ t)) /\
  Forall (fun c => c <> slash) host /\
  (rest = [] \/ exists path, rest = slash :: path).

(** ** The domain service ([domain.ts]) *)

Section DomainService.

(** [String.prototype.toLowerCase] and [String.prototype.trim]. *)
Variable toLowerCase : list nat -> list nat.
Variable trim : list nat -> list nat.

Definition normalizeDomain (domain : list nat) : list nat :=
  let normalized := trim (toLowerCase domain) in
  (* /^https?:\/\//: the longer alternative first, as the greedy [s?] *)
  let normalized :=
    match stripPrefix (units "https://") normalized with
    | Some rest => rest
    | None => removePrefix (units "http://") normalized
    end in
  let normalized := removePrefix (units "www.") normalized in
  beforeSlash normalized.

Definition isValidDomain (domain : list nat) : bool :=
  regexTest domainRegex domain.

Definition tlds : list (list nat) :=
  map units [".com"; ".net"; ".org"; ".io"; ".co"; ".shop"; ".store"].

Definition generateSuggestions (query : list nat) : list (list nat) :=
  let baseName := filter isLowerOrDigit (toLowerCase query) in
  map (fun tld => baseName ++ tld) tlds.

End DomainService.

Section DomainLookup.

Variables Err World : Type.
Variable toLowerCase : list nat -> list nat.
Variable trim : list nat -> list nat.

(** The body of a DNS-over-HTTPS answer, as the source types it. *)
Record DnsData : Type := mkDnsData {
  Status : Z;
  Answer : option (list JSValue)
}.

(** The parts of a [fetch] response the service uses: [response.ok] and
    [response.json()]. *)
Record Response : Type := mkResponse {
  response_ok : bool;
  response_json : Callback Err World DnsData
}.

(** [fetch(url, {headers: {Accept: 'application/dns-json'}})]. *)
Variable fetch : list nat -> Callback Err World Response.

(** A call of a method of [logger]: the level, the message, and the fields
    of the object passed with it. *)
Record LoggerCall : Type := mkLoggerCall {
  call_level : string;
  call_message : string;
  call_domain : list nat;
  call_available : option bool;
  call_error : option Err
}.

Variable logger : LoggerCall -> Callback Err World unit.

Record DomainAvailabilityResult : Type := mkAvailability {
  result_domain : list nat;
  result_available : bool;
  result_premium : option bool;
  result_error : option string
}.

(** [await c] followed by the rest, and [try c catch (e) handler]. *)
Definition thenDo {A B : Type} (c : Callback Err World A)
           (k : A -> Callback Err World B) : Callback Err World B :=
  fun w =>
    match c w with
    | (w', Returned a) => k a w'
    | (w', Threw e) => (w', Threw e)
    end.

Definition tryCatch {A : Type} (c : Callback Err World A)
           (handler : Err -> Callback Err World A) : Callback Err World A :=
  fun w =>
    match c w with
    | (w', Returned a) => (w', Returned a)
    | (w', Threw e) => handler e w'
    end.

Definition yield {A : Type} (a : A) : Callback Err World A :=
  fun w => (w, Returned a).

Definition dnsQueryUrl (domain : list nat) : list nat :=
  units "https://cloudflare-dns.com/dns-query?name=" ++ domain
  ++ units "&type=NS".

Definition checkDNS (domain : list nat) : Callback Err World bool :=
  tryCatch
    (thenDo (fetch (dnsQueryUrl domain)) (fun response =>
       if negb (response_ok response) then yield false
       else
         thenDo (response_json response) (fun data =>
           if (Status data =? 3)%Z then yield true
           else if match Answer data with
                   | Some answers => (0 <? length answers)%nat
                   | None => false
                   end
                then yield false
                else yield true)))
    (fun error =>
       thenDo (logger (mkLoggerCall "warn"
                         "DNS check failed, assuming unavailable"
                         domain None (Some error)))
              (fun _ => yield false)).

Definition checkAvailability (domain : list nat)
  : Callback Err World DomainAvailabilityResult :=
  tryCatch
    (let normalizedDomain := normalizeDomain toLowerCase trim domain in
     if negb (isValidDomain normalizedDomain)
     then yield (mkAvailability normalizedDomain false None
                                (Some "Invalid domain format"))
     else
       thenDo (checkDNS normalizedDomain) (fun isAvailable =>
         thenDo (logger (mkLoggerCall "info" "Domain availability check"
                           normalizedDomain (Some isAvailable) None))
                (fun _ =>
                   yield (mkAvailability normalizedDomain isAvailable
                                         None None))))
    (fun error =>
       thenDo (logger (mkLoggerCall "error"
                         "Error checking domain availability"
                         domain None (Some error)))
              (fun _ =>
                 yield (mkAvailability domain false None
                                       (Some "Failed to check availability")))).

End DomainLookup.

Arguments mkDnsData : clear implicits.
Arguments mkResponse {Err World}.
Arguments response_ok {Err World}.
Arguments response_json {Err World}.
Arguments mkLoggerCall {Err}.
Arguments checkDNS {Err World}.
Arguments checkAvailability {Err World}.

(** A resolver that answers NXDOMAIN to every query, one that cannot be
    reached, and a logger that returns; the world counts the queries. *)
Definition answersNxdomain : list nat -> Callback string nat (@Response string nat) :=
  fun _ w =>
    (S w, Returned (mkResponse true
                      (fun w' => (w', Returned (mkDnsData 3%Z None))))).

Definition unreachable : list nat -> Callback string nat (@Response string nat) :=
  fun _ w => (S w, Threw "network error").

Definition quietLogger : @LoggerCall string -> Callback string nat unit :=
  fun _ w => (w, Returned tt).

(** ** The file dump of development mode

    [dumpFilesToLocal]: the value the promise resolves with.  What the
    function prints with [console.log] is not part of that value and is
    left out.  [DEV_MODE] is [process.env.DEV_MODE]. *)

(** One character of [projectName.replace(/[^a-zA-Z0-9-_]/g, '_')]. *)
Definition sanitizeUnit (c : nat) : nat :=
  if isLower c || isUpper c || isDigit c || (c =? 45)%nat
     || (c =? underscore)%nat
  then c else underscore.

Definition dumpFilesToLocal (DEV_MODE : option string)
           (agentId projectName : list nat)
           (files : list (list nat * list nat)) : option (list nat) :=
  let isDev := match DEV_MODE with
               | Some v => String.eqb v "true"
               | None => false
               end in
  if negb isDev then None
  else if (length files =? 0)%nat then None
  else
    let sanitizedProjectName := firstn 50 (map sanitizeUnit projectName) in
    let shortAgentId := firstn 8 agentId in
    Some (units "./output/" ++ sanitizedProjectName ++ units "-"
          ++ shortAgentId).

(** * Properties *)


(** ** Sequencing and lists *)

Lemma bind_Some {A B : Type} (m : option A) (k : A -> option B) (b : B) :
  bind m k = Some b -> exists a, m = Some a /\ k a = Some b.
Proof.
  destruct m as [a|]; simpl; intros H; [eauto | discriminate].
Qed.

Ltac inv_bind H :=
  let a := fresh "x" in
  let E := fresh "E" in
  apply bind_Some in H; destruct H as (a & E & H).

Lemma processZodType_S getters fuel schema definitions :
  processZodType getters (S fuel) schema definitions =
  processZodType_switch getters (processZodType getters fuel) schema definitions.
Proof. reflexivity. Qed.

Lemma mapM_Some {A B : Type} (f : A -> option B) (xs : list A) (ys : list B) :
  mapM f xs = Some ys -> Forall2 (fun x y => f x = Some y) xs ys.
Proof.
  revert ys; induction xs as [|x xs IH]; simpl; intros ys H.
  - injection H as <-. constructor.
  - inv_bind H. inv_bind H. injection H as <-. constructor; auto.
Qed.

Lemma Forall2_mapM {A B : Type} (f : A -> option B) (xs : list A) (ys : list B) :
  Forall2 (fun x y => f x = Some y) xs ys -> mapM f xs = Some ys.
Proof.
  induction 1 as [|x y xs ys Hxy _ IH]; simpl; [reflexivity|].
  rewrite Hxy; simpl. rewrite IH; reflexivity.
Qed.

Lemma mapM_total {A B : Type} (f : A -> option B) (xs : list A) :
  (forall x, In x xs -> exists y, f x = Some y) ->
  exists ys, mapM f xs = Some ys.
Proof.
  induction xs as [|x xs IH]; simpl; intros H; [eauto|].
  destruct (H x) as [y Hy]; [auto|].
  destruct IH as [ys Hys]; [auto|].
  rewrite Hy, Hys; simpl; eauto.
Qed.

Lemma mapM_defined {A B : Type} (f : A -> option B) (xs : list A) (ys : list B) :
  mapM f xs = Some ys -> forall x, In x xs -> exists y, f x = Some y.
Proof.
  intros H x Hx. apply mapM_Some in H.
  induction H as [|a b xs ys Hab _ IH]; [contradiction|].
  destruct Hx as [<-|Hx]; eauto.
Qed.

(** ** Property assignment and lookup *)

Lemma lookup_setOwn_same {V : Type} (key : string) (v : V) o :
  lookup key (setOwn key v o) = Some v.
Proof.
  induction o as [|[k x] o IH]; simpl.
  - rewrite String.eqb_refl; reflexivity.
  - destruct (String.eqb k key) eqn:E; simpl; rewrite E; auto.
Qed.

Lemma lookup_assign_same {V : Type} (key : string) (v : V) o :
  key <> "__proto__" -> lookup key (assign key v o) = Some v.
Proof.
  intros Hkey. unfold assign.
  destruct (String.eqb key "__proto__") eqn:E.
  - apply String.eqb_eq in E. contradiction.
  - apply lookup_setOwn_same.
Qed.

Lemma lookup_assign_other {V : Type} (key key' : string) (v : V) o :
  key <> key' -> lookup key' (assign key v o) = lookup key' o.
Proof.
  intros Hne. unfold assign.
  destruct (String.eqb key "__proto__"); [reflexivity|].
  induction o as [|[k x] o IH]; simpl.
  - destruct (String.eqb key key') eqn:E; [|reflexivity].
    apply String.eqb_eq in E; contradiction.
  - destruct (String.eqb k key) eqn:E; simpl.
    + apply String.eqb_eq in E; subst k.
      destruct (String.eqb key key') eqn:E'; [|reflexivity].
      apply String.eqb_eq in E'; contradiction.
    + destruct (String.eqb k key'); auto.
Qed.

Lemma In_assign_values {V : Type} (key : string) (v x : V) o :
  In x (Object_values (assign key v o)) -> x = v \/ In x (Object_values o).
Proof.
  unfold Object_values, assign.
  destruct (String.eqb key "__proto__"); [auto|].
  induction o as [|[k y] o IH]; simpl.
  - intros [<-|[]]; auto.
  - destruct (String.eqb k key); simpl.
    + intros [<-|H]; auto.
    + intros [<-|H]; auto. destruct (IH H); auto.
Qed.

(** ** The loop of [processObject] *)

Section ObjectLoop.

Variable compile : ZodType -> Definitions -> option JsonSchema.
Variable definitions : Definitions.

Lemma loop_required entries : forall props req props' req',
  processObject_loop compile entries definitions props req
    = Some (props', req') ->
  req' = req ++ requiredKeys entries.
Proof.
  induction entries as [|[key v] entries IH]; simpl; intros props req props' req' H.
  - injection H as <- <-. unfold requiredKeys; simpl. now rewrite app_nil_r.
  - inv_bind H. apply IH in H. subst req'.
    unfold requiredKeys; simpl.
    destruct (isOptional v); simpl; [reflexivity|].
    now rewrite <- app_assoc.
Qed.

Lemma loop_lookup_other entries key : forall props req props' req',
  processObject_loop compile entries definitions props req
    = Some (props', req') ->
  ~ In key (Object_keys entries) ->
  lookup key props' = lookup key props.
Proof.
  induction entries as [|[k v] entries IH]; simpl; intros props req props' req' H Hnot.
  - now injection H as <- <-.
  - inv_bind H. apply IH in H; [|tauto].
    rewrite H. apply lookup_assign_other. tauto.
Qed.

Lemma loop_lookup entries key v : forall props req props' req',
  processObject_loop compile entries definitions props req
    = Some (props', req') ->
  NoDup (Object_keys entries) ->
  In (key, v) entries ->
  key <> "__proto__" ->
  exists compiled,
    compile v definitions = Some compiled /\
    lookup key props' = Some (attachDescription v compiled).
Proof.
  induction entries as [|[k w] entries IH]; simpl;
    intros props req props' req' H Hnd Hin Hkey.
  - contradiction.
  - inv_bind H. inversion Hnd as [|? ? Hk Hnd']; subst.
    destruct Hin as [Heq|Hin].
    + injection Heq as -> ->. exists x; split; [assumption|].
      erewrite loop_lookup_other by eauto.
      apply lookup_assign_same. exact Hkey.
    + eapply IH; eauto.
Qed.

Lemma loop_total entries : forall props req,
  (forall kv, In kv entries -> exists c, compile (snd kv) definitions = Some c) ->
  exists st, processObject_loop compile entries definitions props req = Some st.
Proof.
  induction entries as [|[k v] entries IH]; simpl; intros props req H; [eauto|].
  destruct (H (k, v)) as [c Hc]; [auto|]. simpl in Hc. rewrite Hc; simpl.
  apply IH; auto.
Qed.

Lemma loop_defined entries : forall props req st,
  processObject_loop compile entries definitions props req = Some st ->
  forall kv, In kv entries -> exists c, compile (snd kv) definitions = Some c.
Proof.
  induction entries as [|[k v] entries IH]; simpl; intros props req st H kv Hin.
  - contradiction.
  - inv_bind H. destruct Hin as [<-|Hin]; simpl; eauto.
Qed.

Lemma loop_values entries : forall props req props' req',
  processObject_loop compile entries definitions props req
    = Some (props', req') ->
  forall s, In s (Object_values props') ->
    In s (Object_values props) \/
    exists kv c, In kv entries /\ compile (snd kv) definitions = Some c /\
                 s = attachDescription (snd kv) c.
Proof.
  induction entries as [|[k v] entries IH]; simpl; intros props req props' req' H s Hs.
  - injection H as <- <-. auto.
  - inv_bind H. destruct (IH _ _ _ _ H s Hs) as [Hin|(kv & c & Hin & Hc & ->)].
    + apply In_assign_values in Hin. destruct Hin as [->|Hin]; [|auto].
      right. exists (k, v), x. auto.
    + right. exists kv, c. auto.
Qed.

End ObjectLoop.

(** ** More fuel never changes a result *)

Section Extension.

Variables compile1 compile2 : ZodType -> Definitions -> option JsonSchema.
Hypothesis extends : forall schema definitions r,
  compile1 schema definitions = Some r -> compile2 schema definitions = Some r.

Lemma mapM_extends definitions xs : forall ys,
  mapM (fun x => compile1 x definitions) xs = Some ys ->
  mapM (fun x => compile2 x definitions) xs = Some ys.
Proof.
  induction xs as [|x xs IH]; simpl; intros ys H; [assumption|].
  inv_bind H. inv_bind H. injection H as <-.
  rewrite (extends _ _ _ E); simpl. rewrite (IH _ E0); reflexivity.
Qed.

Lemma loop_extends definitions entries : forall props req st,
  processObject_loop compile1 entries definitions props req = Some st ->
  processObject_loop compile2 entries definitions props req = Some st.
Proof.
  induction entries as [|[k v] entries IH]; simpl; intros props req st H;
    [assumption|].
  inv_bind H. rewrite (extends _ _ _ E); simpl. auto.
Qed.

Lemma switch_extends getters schema definitions r :
  processZodType_switch getters compile1 schema definitions = Some r ->
  processZodType_switch getters compile2 schema definitions = Some r.
Proof.
  unfold processZodType_switch.
  destruct (_def schema); auto;
    unfold processArray, processObject, processUnion,
      processDiscriminatedUnion, processIntersection, processTuple,
      processOptional, processNullable, processDefault;
    intros H;
    repeat match type of H with
           | bind _ _ = Some _ => inv_bind H
           end;
    repeat match goal with
           | E : compile1 _ _ = Some _ |- _ =>
               rewrite (extends _ _ _ E); clear E; simpl
           | E : mapM _ _ = Some _ |- _ =>
               rewrite (mapM_extends _ _ _ E); clear E; simpl
           | E : processObject_loop _ _ _ _ _ = Some _ |- _ =>
               rewrite (loop_extends _ _ _ _ _ E); clear E; simpl
           end;
    auto.
Qed.

End Extension.

Lemma processZodType_step getters fuel : forall schema definitions r,
  processZodType getters fuel schema definitions = Some r ->
  processZodType getters (S fuel) schema definitions = Some r.
Proof.
  induction fuel as [|fuel IH]; intros schema definitions r H;
    [discriminate|].
  rewrite processZodType_S in *.
  eapply switch_extends; [|exact H]. exact IH.
Qed.

Lemma processZodType_more_fuel getters fuel fuel' schema definitions r :
  fuel <= fuel' ->
  processZodType getters fuel schema definitions = Some r ->
  processZodType getters fuel' schema definitions = Some r.
Proof.
  induction 1 as [|fuel' _ IH]; intros H; [assumption|].
  apply processZodType_step; auto.
Qed.

(** A result, once returned, is the result at every fuel that returns. *)
Lemma processZodType_deterministic getters f1 f2 schema definitions r1 r2 :
  processZodType getters f1 schema definitions = Some r1 ->
  processZodType getters f2 schema definitions = Some r2 ->
  r1 = r2.
Proof.
  intros H1 H2.
  apply (processZodType_more_fuel _ _ (Nat.max f1 f2)) in H1; [|lia].
  apply (processZodType_more_fuel _ _ (Nat.max f1 f2)) in H2; [|lia].
  congruence.
Qed.

(** ** Closed objects *)

Lemma objectsClosed_intro (s : JsonSchema) :
  (type s = Some "object" -> additionalProperties s = Some false) ->
  (forall c, In c (childSchemas s) -> objectsClosed c) ->
  objectsClosed s.
Proof.
  intros Hroot Hbelow n Hn. inversion Hn as [|? c ? Hc Hnc]; subst.
  - exact Hroot.
  - exact (Hbelow c Hc n Hnc).
Qed.

Lemma objectsClosed_child (s c : JsonSchema) :
  objectsClosed s -> In c (childSchemas s) -> objectsClosed c.
Proof.
  intros H Hc n Hn. apply H. eapply node_below; eauto.
Qed.

(** An update of a field that holds no schema and is neither [type] nor
    [additionalProperties] keeps the property. *)
Lemma objectsClosed_same (s s' : JsonSchema) :
  type s' = type s ->
  additionalProperties s' = additionalProperties s ->
  childSchemas s' = childSchemas s ->
  objectsClosed s -> objectsClosed s'.
Proof.
  intros Ht Ha Hc H. apply objectsClosed_intro.
  - rewrite Ht, Ha. apply H. constructor.
  - rewrite Hc. intros c Hin. eapply objectsClosed_child; eauto.
Qed.

Lemma objectsClosed_attachDescription zodValue s :
  objectsClosed s -> objectsClosed (attachDescription zodValue s).
Proof.
  unfold attachDescription. destruct (_description zodValue) as [d|]; auto.
  destruct (truthy (Some d)); auto.
  apply objectsClosed_same; reflexivity.
Qed.

Lemma processString_shape checks :
  type (processString checks) = Some "string" /\
  childSchemas (processString checks) = [].
Proof.
  unfold processString.
  assert (G : forall acc,
             type acc = Some "string" /\ childSchemas acc = [] ->
             let r := fold_left
               (fun result check =>
                  if String.eqb (kind check) "email" then set_format "email" result
                  else if String.eqb (kind check) "url" then set_format "uri" result
                  else if String.eqb (kind check) "uuid" then set_format "uuid" result
                  else if String.eqb (kind check) "datetime"
                       then set_format "date-time" result
                  else if String.eqb (kind check) "date" then set_format "date" result
                  else if String.eqb (kind check) "time" then set_format "time" result
                  else if String.eqb (kind check) "ip"
                       then set_format
                              (match version check with
                               | Some "v6" => "ipv6"
                               | _ => "ipv4"
                               end) result
                  else result) checks acc in
             type r = Some "string" /\ childSchemas r = []).
  { induction checks as [|c checks IH]; intros acc Hacc; [exact Hacc|].
    simpl. apply IH.
    repeat match goal with
           | |- context [if ?b then _ else _] => destruct b
           end; try exact Hacc; destruct Hacc; split; assumption. }
  apply G. split; reflexivity.
Qed.

Lemma Forall2_closed {A : Type} (f : A -> option JsonSchema) xs ys :
  (forall x r, f x = Some r -> objectsClosed r) ->
  Forall2 (fun x y => f x = Some y) xs ys ->
  forall c, In c ys -> objectsClosed c.
Proof.
  intros Hf H. induction H as [|x y xs ys Hxy _ IH]; intros c Hc.
  - contradiction.
  - destruct Hc as [<-|Hc]; eauto.
Qed.

Ltac children_in H :=
  unfold childSchemas in H; simpl in H; rewrite ?app_nil_r in H.

Section ClosedSwitch.

Variable getters : nat -> ZodType.
Variable compile : ZodType -> Definitions -> option JsonSchema.
Hypothesis compile_closed : forall schema definitions r,
  compile schema definitions = Some r -> objectsClosed r.

Lemma switch_closed schema definitions r :
  processZodType_switch getters compile schema definitions = Some r ->
  objectsClosed r.
Proof.
  unfold processZodType_switch.
  destruct (_def schema) eqn:Hdef;
    unfold processArray, processObject, processUnion,
      processDiscriminatedUnion, processIntersection, processTuple,
      processRecord, processOptional, processNullable, processDefault,
      processLiteral, processEnum, processNativeEnum;
    intros H;
    repeat match type of H with
           | bind _ _ = Some _ => inv_bind H
           end;
    try (eapply compile_closed; eassumption);
    try (injection H as <-;
         apply objectsClosed_intro; simpl;
         [discriminate || reflexivity | intros c Hc; simpl in Hc; tauto]).
  - (* string *)
    injection H as <-. destruct (processString_shape checks) as [Ht Hc].
    apply objectsClosed_intro.
    + rewrite Ht; discriminate.
    + rewrite Hc; contradiction.
  - (* array *)
    injection H as <-.
    assert (G : objectsClosed (set_items x (set_type "array" emptySchema))).
    { apply objectsClosed_intro; simpl; [discriminate|].
      intros c [<-|[]]. eauto. }
    destruct minLength as [n|]; [|exact G].
    destruct ((n =? 0)%Z || (n =? 1)%Z); [|exact G].
    revert G. apply objectsClosed_same; reflexivity.
  - (* object *)
    destruct x as [props req]. injection H as <-.
    apply objectsClosed_intro; simpl; [reflexivity|].
    intros c Hc. children_in Hc.
    destruct (loop_values _ _ _ _ _ _ _ E c Hc) as [[]|(kv & c0 & _ & Hc0 & ->)].
    apply objectsClosed_attachDescription. eauto.
  - (* union *)
    injection H as <-. apply objectsClosed_intro; simpl; [discriminate|].
    intros c Hc. children_in Hc.
    eapply (Forall2_closed _ _ _ (fun x r => compile_closed x definitions r));
      [apply mapM_Some; eassumption | exact Hc].
  - (* discriminated union *)
    injection H as <-. apply objectsClosed_intro; simpl; [discriminate|].
    intros c Hc. children_in Hc.
    eapply (Forall2_closed _ _ _ (fun x r => compile_closed x definitions r));
      [apply mapM_Some; eassumption | exact Hc].
  - (* intersection *)
    injection H as <-. apply objectsClosed_intro; simpl; [discriminate|].
    intros c [<-|[<-|[]]]; eauto.
  - (* tuple *)
    injection H as <-.
    assert (Hall : forall c, In c x -> objectsClosed c).
    { eapply (Forall2_closed _ _ _ (fun x r => compile_closed x definitions r)).
      apply mapM_Some; eassumption. }
    apply objectsClosed_intro; simpl; [discriminate|].
    intros c [<-|[]].
    destruct x as [|a [|b x]].
    + apply objectsClosed_intro; simpl; [discriminate | tauto].
    + apply Hall; simpl; auto.
    + apply objectsClosed_intro; [discriminate|].
      intros c Hc. children_in Hc. apply Hall. exact Hc.
  - (* nullable *)
    injection H as <-. apply objectsClosed_intro; simpl; [discriminate|].
    intros c [<-|[<-|[]]]; [eauto|].
    apply objectsClosed_intro; simpl; [discriminate | tauto].
  - (* default *)
    injection H as <-.
    apply (objectsClosed_same x); try reflexivity. eauto.
Qed.

End ClosedSwitch.

Lemma processZodType_closed getters fuel : forall schema definitions r,
  processZodType getters fuel schema definitions = Some r -> objectsClosed r.
Proof.
  induction fuel as [|fuel IH]; intros schema definitions r H; [discriminate|].
  rewrite processZodType_S in H.
  eapply switch_closed; [exact IH | exact H].
Qed.

(** ** Termination and finite unfolding *)

Section SwitchCalls.

Variable getters : nat -> ZodType.
Variable compile : ZodType -> Definitions -> option JsonSchema.

Ltac unfold_helpers :=
  unfold processArray, processObject, processUnion,
    processDiscriminatedUnion, processIntersection, processTuple,
    processRecord, processOptional, processNullable, processDefault.

(** The switch returns as soon as all the calls it makes return. *)
Lemma switch_total schema definitions :
  (forall c, In c (visited getters (_def schema)) ->
             exists r, compile c definitions = Some r) ->
  exists r, processZodType_switch getters compile schema definitions = Some r.
Proof.
  unfold processZodType_switch.
  destruct (_def schema); simpl; intros H; unfold_helpers; eauto;
    try (destruct (H _ (or_introl eq_refl)) as [r1 Hr1];
         try (destruct (H _ (or_intror (or_introl eq_refl))) as [r2 Hr2];
              rewrite Hr2);
         rewrite Hr1; simpl; eauto; fail).
  - (* object *)
    destruct (loop_total compile definitions shape [] []) as [[p q] Hst].
    { intros [k v] Hin. apply H. unfold Object_values.
      apply in_map_iff. exists (k, v); auto. }
    rewrite Hst; simpl; eauto.
  - destruct (mapM_total (fun opt => compile opt definitions) options H)
      as [ys Hys].
    rewrite Hys; simpl; eauto.
  - destruct (mapM_total (fun opt => compile opt definitions) options H)
      as [ys Hys].
    rewrite Hys; simpl; eauto.
  - destruct (mapM_total (fun opt => compile opt definitions) items_ H)
      as [ys Hys].
    rewrite Hys; simpl; eauto.
Qed.

(** It returns only if they all do. *)
Lemma switch_defined schema definitions r :
  processZodType_switch getters compile schema definitions = Some r ->
  forall c, In c (visited getters (_def schema)) ->
            exists r', compile c definitions = Some r'.
Proof.
  unfold processZodType_switch.
  destruct (_def schema); simpl; unfold_helpers; intros H c Hc;
    try contradiction;
    repeat match type of H with
           | bind _ _ = Some _ => inv_bind H
           end;
    try (eapply mapM_defined with (f := fun opt => compile opt definitions);
         eassumption);
    try (destruct Hc as [<-|[<-|[]]]; eauto; fail);
    try (destruct Hc as [<-|[]]; eauto; fail).
  (* object *)
  unfold Object_values in Hc. apply in_map_iff in Hc.
  destruct Hc as ([k v] & <- & Hin).
  eapply (loop_defined compile definitions) in E; eauto.
Qed.

End SwitchCalls.

Lemma finiteUnfolding_fuel getters definitions (l : list ZodType) :
  (forall c, In c l ->
     exists fuel r, processZodType getters fuel c definitions = Some r) ->
  exists fuel, forall c, In c l ->
     exists r, processZodType getters fuel c definitions = Some r.
Proof.
  induction l as [|a l IH]; intros H.
  - exists 0. contradiction.
  - destruct (H a (or_introl eq_refl)) as (fa & ra & Ha).
    destruct IH as [fl Hl]; [intros c Hc; apply H; right; exact Hc|].
    exists (Nat.max fa fl). intros c [<-|Hc].
    + exists ra. eapply processZodType_more_fuel; [|exact Ha]. lia.
    + destruct (Hl c Hc) as [r Hr]. exists r.
      eapply processZodType_more_fuel; [|exact Hr]. lia.
Qed.

Lemma finiteUnfolding_returns getters schema :
  finiteUnfolding getters schema ->
  forall definitions,
  exists fuel r, processZodType getters fuel schema definitions = Some r.
Proof.
  induction 1 as [schema _ IH]; intros definitions.
  destruct (finiteUnfolding_fuel getters definitions
              (visited getters (_def schema))) as [fuel Hfuel].
  { intros c Hc. apply IH; exact Hc. }
  exists (S fuel). rewrite processZodType_S.
  apply switch_total. exact Hfuel.
Qed.

Lemma returns_finiteUnfolding getters fuel : forall schema definitions r,
  processZodType getters fuel schema definitions = Some r ->
  finiteUnfolding getters schema.
Proof.
  induction fuel as [|fuel IH]; intros schema definitions r H; [discriminate|].
  rewrite processZodType_S in H. constructor. intros c Hc.
  destruct (switch_defined _ _ _ _ _ H c Hc) as [r' Hr']. eauto.
Qed.

(** ** Tool invocation: the log of a run *)

Section ToolInvocationLog.

Context {TArgs TResult Err World : Type}.

Local Abbreviation ToolDef := (ToolDefinition TArgs TResult Err World).
Local Abbreviation RunState := (Run TArgs TResult Err World).
Lemma executeToolWithDefinition_course (toolDef : ToolDef) (args : TArgs)
      (r : RunState) :
  exists new,
    log (fst (executeToolWithDefinition toolDef args r)) = log r ++ new /\
    Course toolDef args new (snd (executeToolWithDefinition toolDef args r)).
Proof.
  unfold executeToolWithDefinition, andThen, await, call, record, pure,
    andThen.
  pose proof (course_rejected toolDef args) as Hrej.
  pose proof (course_resolved toolDef args) as Hres.
  pose proof (course_start_threw toolDef args) as Hthrew.
  unfold startEvents, completeEvents in *.
  destruct (onStart toolDef) as [start|]; simpl.
  - destruct (start args (world r)) as [w1 [[]|e1]]; simpl.
    + destruct (implementation toolDef args w1) as [w2 [result|e2]]; simpl.
      * destruct (onComplete toolDef) as [complete|]; simpl.
        -- destruct (complete args result w2) as [w3 [[]|e3]]; simpl;
             eexists; (split; [rewrite <- !app_assoc; reflexivity|]);
             apply Hres; [left; reflexivity|].
           right; split; [discriminate | eauto].
        -- eexists; (split; [rewrite <- !app_assoc; reflexivity|]).
           apply Hres. left; reflexivity.
      * eexists; (split; [rewrite <- !app_assoc; reflexivity|]).
        apply Hrej.
    + eexists; split; [reflexivity|]. apply Hthrew. discriminate.
  - destruct (implementation toolDef args (world r)) as [w2 [result|e2]];
      simpl.
    + destruct (onComplete toolDef) as [complete|]; simpl.
      * destruct (complete args result w2) as [w3 [[]|e3]]; simpl;
          eexists; (split; [rewrite <- !app_assoc; reflexivity|]);
          apply (Hres result); [left; reflexivity|].
        right; split; [discriminate | eauto].
      * eexists; (split; [rewrite <- !app_assoc; reflexivity|]).
        apply (Hres result). left; reflexivity.
    + eexists; (split; [rewrite <- !app_assoc; reflexivity|]).
      apply (Hrej e2).
Qed.

End ToolInvocationLog.

(** ** Results of the compiler *)

Lemma compiles_deterministic getters schema definitions r1 r2 :
  compiles getters schema definitions r1 ->
  compiles getters schema definitions r2 ->
  r1 = r2.
Proof.
  intros [f1 H1] [f2 H2]. eapply processZodType_deterministic; eauto.
Qed.

Lemma finiteUnfolding_compiles getters schema definitions :
  finiteUnfolding getters schema ->
  exists r, compiles getters schema definitions r.
Proof.
  intros H. destruct (finiteUnfolding_returns _ _ H definitions) as (f & r & Hr).
  exists r, f. exact Hr.
Qed.

(** A node with finite unfolding returns what its switch returns on the
    results of the calls it makes. *)
Lemma compiles_switch getters schema definitions r :
  compiles getters schema definitions r ->
  exists fuel,
    processZodType_switch getters (processZodType getters fuel)
      schema definitions = Some r.
Proof.
  intros [[|fuel] H]; [discriminate|]. exists fuel. exact H.
Qed.

(** C1: whenever [compile] returns on a schema, every object node of the
    result, at any depth and whether it comes from an object or from a
    record, has [additionalProperties] equal to [false]. *)
Theorem C1_object_nodes_closed getters schema definitions r :
  compiles getters schema definitions r ->
  forall n, nodeOf n r ->
            type n = Some "object" -> additionalProperties n = Some false.
Proof.
  intros [fuel H]. exact (processZodType_closed _ _ _ _ _ H).
Qed.

Lemma C1_object_nodes_closed_witness :
  exists r, zodToJsonSchema noGetters 4 nestedRecords [] = Some r /\
            forall n, nodeOf n r ->
                      type n = Some "object" ->
                      additionalProperties n = Some false.
Proof.
  eexists. split; [reflexivity|].
  apply (C1_object_nodes_closed noGetters nestedRecords []).
  exists 4. reflexivity.
Defined.

(** C5: on a numeric native enum the emitted [enum] list holds the member
    names of the reverse mappings next to the numeric values: the filter
    keeps every string and every number. *)
Theorem C5_numeric_enum_keeps_member_names :
  processZodType noGetters 1 (Zod None (ZodNativeEnum Direction)) [] =
  Some (set_enum [JSString "Up"; JSString "Down"; JSNumber 0; JSNumber 1]
                 emptySchema).
Proof. reflexivity. Qed.

(** C6: when the compiled root is not of type [object], the adapter returns
    the synthetic object whose only property [result] holds the root, with
    [required = ["result"]] and [additionalProperties = false]; a plain
    string schema gives
    [{type: "object", properties: {result: {type: "string"}},
      required: ["result"], additionalProperties: false}]. *)
Theorem C6_non_object_root_wrapped :
  (forall getters fuel schema name root,
      zodToJsonSchema getters fuel schema [] = Some root ->
      type root <> Some "object" ->
      createAnthropicOutputFormat getters fuel schema name =
      Some (mkOutputFormat "json_schema" (wrappedResult root))) /\
  createAnthropicOutputFormat noGetters 1 zString None =
  Some (mkOutputFormat "json_schema"
          (wrappedResult (set_type "string" emptySchema))).
Proof.
  split; [|reflexivity].
  intros getters fuel schema name root H Hty.
  unfold createAnthropicOutputFormat. rewrite H; simpl.
  destruct (type root) as [t|] eqn:Et; [|reflexivity].
  destruct (String.eqb t "object") eqn:E; [|reflexivity].
  apply String.eqb_eq in E. subst t. contradiction.
Qed.

Lemma C6_non_object_root_wrapped_witness :
  createAnthropicOutputFormat noGetters 2 (zNullable zNumber) (Some "answer") =
  Some (mkOutputFormat "json_schema"
          (wrappedResult (set_anyOf [set_type "number" emptySchema;
                                     set_type "null" emptySchema]
                                    emptySchema))).
Proof.
  apply (proj1 C6_non_object_root_wrapped noGetters 2 (zNullable zNumber)
           (Some "answer")).
  - reflexivity.
  - simpl. discriminate.
Defined.

(** ** Objects, arrays and wrappers *)

Lemma compiles_object getters schema shape definitions r :
  _def schema = ZodObject shape ->
  compiles getters schema definitions r ->
  exists fuel properties_,
    processObject_loop (processZodType getters fuel) shape definitions [] []
      = Some (properties_, requiredKeys shape) /\
    r = objectSchema properties_ (requiredKeys shape).
Proof.
  intros Hdef H. apply compiles_switch in H. destruct H as [fuel H].
  unfold processZodType_switch in H. rewrite Hdef in H.
  unfold processObject in H. inv_bind H. destruct x as [props req].
  injection H as <-.
  pose proof (loop_required _ _ _ _ _ _ _ E) as Hreq. simpl in Hreq.
  subst req. exists fuel, props. split; [assumption|].
  unfold objectSchema. destruct (requiredKeys shape); reflexivity.
Qed.

Lemma compiles_object_field getters schema shape definitions r key field :
  _def schema = ZodObject shape ->
  compiles getters schema definitions r ->
  NoDup (Object_keys shape) ->
  In (key, field) shape ->
  exists properties_ compiled,
    r = objectSchema properties_ (requiredKeys shape) /\
    compiles getters field definitions compiled /\
    (key <> "__proto__" ->
     lookup key properties_ = Some (attachDescription field compiled)).
Proof.
  intros Hdef H Hnd Hin.
  destruct (compiles_object _ _ _ _ _ Hdef H) as (fuel & props & Hloop & ->).
  destruct (loop_defined _ _ _ _ _ _ Hloop (key, field) Hin) as [c Hc].
  simpl in Hc.
  exists props, c. repeat split; auto; [exists fuel; exact Hc|].
  intros Hkey.
  destruct (loop_lookup _ _ _ _ _ _ _ _ _ Hloop Hnd Hin Hkey)
    as (c' & Hc' & Hl).
  congruence.
Qed.

Lemma compiles_optional getters schema inner definitions r :
  _def schema = ZodOptional inner ->
  compiles getters schema definitions r ->
  compiles getters inner definitions r.
Proof.
  intros Hdef H. apply compiles_switch in H. destruct H as [fuel H].
  unfold processZodType_switch in H. rewrite Hdef in H.
  exists fuel. exact H.
Qed.


Lemma compiles_default getters schema inner defaultValue definitions r :
  _def schema = ZodDefault inner defaultValue ->
  compiles getters schema definitions r ->
  exists innerSchema,
    compiles getters inner definitions innerSchema /\
    r = set_default defaultValue innerSchema.
Proof.
  intros Hdef H. apply compiles_switch in H. destruct H as [fuel H].
  unfold processZodType_switch in H. rewrite Hdef in H.
  unfold processDefault in H. inv_bind H. injection H as <-.
  exists x. split; [exists fuel; assumption | reflexivity].
Qed.

Lemma compiles_array getters schema elementType minLength definitions r :
  _def schema = ZodArray elementType minLength ->
  compiles getters schema definitions r ->
  exists compiledItems,
    compiles getters elementType definitions compiledItems /\
    r = match minLength with
        | Some n =>
            if (n =? 0)%Z || (n =? 1)%Z
            then set_minItems n
                   (set_items compiledItems (set_type "array" emptySchema))
            else set_items compiledItems (set_type "array" emptySchema)
        | None => set_items compiledItems (set_type "array" emptySchema)
        end.
Proof.
  intros Hdef H. apply compiles_switch in H. destruct H as [fuel H].
  unfold processZodType_switch in H. rewrite Hdef in H.
  unfold processArray in H. inv_bind H. injection H as <-.
  exists x. split; [exists fuel; assumption | reflexivity].
Qed.

Lemma requiredKeys_In key shape :
  In key (requiredKeys shape) <->
  exists field, In (key, field) shape /\ isOptional field = false.
Proof.
  unfold requiredKeys, Object_keys. rewrite in_map_iff. split.
  - intros ([k f] & <- & Hin). apply filter_In in Hin. destruct Hin as [Hin Hopt].
    exists f. split; [assumption|]. simpl in Hopt.
    now destruct (isOptional f).
  - intros (f & Hin & Hopt). exists (key, f). split; [reflexivity|].
    apply filter_In. split; [assumption|]. simpl. now rewrite Hopt.
Qed.

Lemma NoDup_keys_unique {V : Type} (o : list (string * V)) key v1 v2 :
  NoDup (Object_keys o) -> In (key, v1) o -> In (key, v2) o -> v1 = v2.
Proof.
  unfold Object_keys. induction o as [|[k x] o IH]; simpl; intros Hnd H1 H2.
  - contradiction.
  - inversion Hnd as [|? ? Hk Hnd']; subst.
    destruct H1 as [E1|H1], H2 as [E2|H2].
    + congruence.
    + injection E1 as -> ->. exfalso. apply Hk.
      apply in_map_iff. exists (key, v2); auto.
    + injection E2 as -> ->. exfalso. apply Hk.
      apply in_map_iff. exists (key, v1); auto.
    + auto.
Qed.

Lemma required_objectSchema properties_ required_ :
  optionalList (required (objectSchema properties_ required_)) = required_.
Proof.
  unfold objectSchema; simpl. destruct required_; reflexivity.
Qed.

(** ** Fields of a compiled object *)




(** C7: in the result of compiling an object, the key of an optional- or
    default-wrapped field is not in [required]; the field compiles to what
    its inner type compiles to (a default-wrapped field with the default
    value added as [default]), and, for a key other than [__proto__], that
    is the property the object holds for the key, with the field's
    description attached when it has one. *)
Theorem C7_optional_default_field getters d shape key field definitions :
  finiteUnfolding getters (Zod d (ZodObject shape)) ->
  NoDup (Object_keys shape) ->
  In (key, field) shape ->
  exists r props,
    compiles getters (Zod d (ZodObject shape)) definitions r /\
    properties r = Some props /\
    (forall inner, _def field = ZodOptional inner ->
       ~ In key (optionalList (required r)) /\
       exists compiledInner,
         compiles getters inner definitions compiledInner /\
         compiles getters field definitions compiledInner /\
         (key <> "__proto__" ->
          lookup key props = Some (attachDescription field compiledInner))) /\
    (forall inner defaultValue, _def field = ZodDefault inner defaultValue ->
       ~ In key (optionalList (required r)) /\
       exists compiledInner property,
         compiles getters inner definitions compiledInner /\
         compiles getters field definitions
                  (set_default defaultValue compiledInner) /\
         property = attachDescription field
                      (set_default defaultValue compiledInner) /\
         default property = Some defaultValue /\
         (key <> "__proto__" -> lookup key props = Some property)).
Proof.
  intros Hfin Hnd Hin.
  destruct (finiteUnfolding_compiles _ _ definitions Hfin) as [r Hr].
  destruct (compiles_object_field getters (Zod d (ZodObject shape)) shape
              definitions r key field eq_refl Hr Hnd Hin)
    as (props & c & -> & Hc & Hl).
  assert (Habsent : isOptional field = true ->
                    ~ In key (optionalList
                                (required (objectSchema props
                                             (requiredKeys shape))))).
  { intros Hopt. rewrite required_objectSchema. intros Hreq.
    apply requiredKeys_In in Hreq. destruct Hreq as (f & Hf & Hfopt).
    rewrite (NoDup_keys_unique _ _ _ _ Hnd Hin Hf) in Hopt. congruence. }
  exists (objectSchema props (requiredKeys shape)), props.
  split; [exact Hr|]. split; [reflexivity|]. split.
  - intros inner Hdef. split.
    + apply Habsent. unfold isOptional. now rewrite Hdef.
    + exists c. split; [eapply compiles_optional; eauto|].
      split; [exact Hc | exact Hl].
  - intros inner defaultValue Hdef. split.
    + apply Habsent. unfold isOptional. now rewrite Hdef.
    + destruct (compiles_default _ _ _ _ _ _ Hdef Hc) as (ci & Hci & ->).
      exists ci, (attachDescription field (set_default defaultValue ci)).
      split; [exact Hci|]. split; [exact Hc|]. split; [reflexivity|].
      split; [|exact Hl].
      unfold attachDescription. destruct (_description field) as [s|]; auto.
      destruct (truthy (Some s)); reflexivity.
Qed.

Lemma C7_optional_default_field_witness :
  let field := Zod None (ZodDefault zNumber (JSNumber 7)) in
  exists r props,
    compiles noGetters optionalFields [] r /\
    properties r = Some props /\
    (forall inner, _def field = ZodOptional inner ->
       ~ In "b" (optionalList (required r)) /\
       exists compiledInner,
         compiles noGetters inner [] compiledInner /\
         compiles noGetters field [] compiledInner /\
         ("b" <> "__proto__" ->
          lookup "b" props = Some (attachDescription field compiledInner))) /\
    (forall inner defaultValue, _def field = ZodDefault inner defaultValue ->
       ~ In "b" (optionalList (required r)) /\
       exists compiledInner property,
         compiles noGetters inner [] compiledInner /\
         compiles noGetters field []
                  (set_default defaultValue compiledInner) /\
         property = attachDescription field
                      (set_default defaultValue compiledInner) /\
         default property = Some defaultValue /\
         ("b" <> "__proto__" -> lookup "b" props = Some property)).
Proof.
  apply (C7_optional_default_field noGetters None
           [("a", zOptional zString);
            ("b", Zod None (ZodDefault zNumber (JSNumber 7)))]
           "b" (Zod None (ZodDefault zNumber (JSNumber 7))) []).
  - apply (returns_finiteUnfolding noGetters 3 _ [] (objectSchema
             [("a", set_type "string" emptySchema);
              ("b", set_default (JSNumber 7) (set_type "number" emptySchema))]
             [])).
    reflexivity.
  - unfold Object_keys; simpl.
    repeat (constructor; [simpl; intuition discriminate|]). constructor.
  - simpl; auto.
Defined.

(** C8: an array compiles to [{type: "array", items: compile(element)}];
    with a declared minimum length of 0 or 1 the result carries exactly that
    value as [minItems]; with a minimum length of 2 or more, or with none,
    it has no [minItems]. *)
Theorem C8_array_minItems getters d elementType minLength definitions :
  finiteUnfolding getters (Zod d (ZodArray elementType minLength)) ->
  exists r compiledItems,
    compiles getters (Zod d (ZodArray elementType minLength)) definitions r /\
    compiles getters elementType definitions compiledItems /\
    type r = Some "array" /\
    items r = Some compiledItems /\
    (minLength = Some 0%Z \/ minLength = Some 1%Z -> minItems r = minLength) /\
    (minLength = None \/ (exists n, minLength = Some n /\ (2 <= n)%Z) ->
     minItems r = None).
Proof.
  intros Hfin.
  destruct (finiteUnfolding_compiles _ _ definitions Hfin) as [r Hr].
  destruct (compiles_array getters (Zod d (ZodArray elementType minLength))
              elementType minLength definitions r eq_refl Hr)
    as (ci & Hci & Heq).
  exists r, ci. split; [assumption|]. split; [assumption|].
  subst r. destruct minLength as [n|].
  - destruct ((n =? 0)%Z || (n =? 1)%Z) eqn:E;
      (split; [reflexivity|]); (split; [reflexivity|]); split.
    + intros _. reflexivity.
    + intros [H|(m & H & Hm)]; [discriminate|]. injection H as ->.
      apply orb_true_iff in E. rewrite !Z.eqb_eq in E. lia.
    + intros [H|H]; injection H as ->; discriminate.
    + intros _. reflexivity.
  - repeat split.
Qed.

Lemma C8_array_minItems_witness :
  exists r compiledItems,
    compiles noGetters (Zod None (ZodArray zString (Some 1%Z))) [] r /\
    compiles noGetters zString [] compiledItems /\
    type r = Some "array" /\
    items r = Some compiledItems /\
    (Some 1%Z = Some 0%Z \/ Some 1%Z = Some 1%Z -> minItems r = Some 1%Z) /\
    (Some 1%Z = None \/ (exists n, Some 1%Z = Some n /\ (2 <= n)%Z) ->
     minItems r = None).
Proof.
  apply (C8_array_minItems noGetters None zString (Some 1%Z) []).
  apply (returns_finiteUnfolding noGetters 2 _ []
           (set_minItems 1 (set_items (set_type "string" emptySchema)
                                      (set_type "array" emptySchema)))).
  reflexivity.
Defined.

Example array_min_two_has_no_minItems :
  processZodType noGetters 2 (Zod None (ZodArray zString (Some 2%Z))) [] =
  Some (set_items (set_type "string" emptySchema)
                  (set_type "array" emptySchema)).
Proof. reflexivity. Qed.

(** C10: when every field of an object is optional- or default-wrapped, the
    compiled object has no [required] at all ([undefined]), not an empty
    list. *)
Theorem C10_no_required_key getters d shape definitions :
  finiteUnfolding getters (Zod d (ZodObject shape)) ->
  (forall key field, In (key, field) shape ->
     (exists inner, _def field = ZodOptional inner) \/
     (exists inner defaultValue, _def field = ZodDefault inner defaultValue)) ->
  exists r,
    compiles getters (Zod d (ZodObject shape)) definitions r /\
    type r = Some "object" /\
    required r = None.
Proof.
  intros Hfin Hall.
  destruct (finiteUnfolding_compiles _ _ definitions Hfin) as [r Hr].
  destruct (compiles_object getters (Zod d (ZodObject shape)) shape
              definitions r eq_refl Hr) as (fuel & props & _ & Heq).
  exists r. split; [assumption|]. subst r.
  split; [reflexivity|].
  assert (Hnone : requiredKeys shape = []).
  { destruct (requiredKeys shape) as [|k l] eqn:E; [reflexivity|].
    assert (Hk : In k (requiredKeys shape)) by (rewrite E; simpl; auto).
    apply requiredKeys_In in Hk. destruct Hk as (f & Hin & Hopt).
    unfold isOptional in Hopt.
    destruct (Hall _ _ Hin) as [[i Hi]|(i & dv & Hi)];
      rewrite Hi in Hopt; discriminate. }
  rewrite Hnone. reflexivity.
Qed.

Lemma C10_no_required_key_witness :
  exists r,
    compiles noGetters optionalFields [] r /\
    type r = Some "object" /\
    required r = None.
Proof.
  apply (C10_no_required_key noGetters None
           [("a", zOptional zString);
            ("b", Zod None (ZodDefault zNumber (JSNumber 7)))] []).
  - apply (returns_finiteUnfolding noGetters 3 _ [] (objectSchema
             [("a", set_type "string" emptySchema);
              ("b", set_default (JSNumber 7) (set_type "number" emptySchema))]
             [])).
    reflexivity.
  - intros key field [H|[H|[]]]; injection H as <- <-.
    + left. exists zString. reflexivity.
    + right. exists zNumber, (JSNumber 7). reflexivity.
Defined.

(** ** Self-reference *)

Lemma Node_never_returns fuel definitions :
  processZodType nodeGetters fuel Node definitions = None /\
  processZodType nodeGetters fuel (zOptional Node) definitions = None /\
  processZodType nodeGetters fuel NodeBody definitions = None.
Proof.
  induction fuel as [|fuel (IHnode & IHopt & IHbody)]; [repeat split|].
  rewrite !processZodType_S. repeat split.
  - exact IHbody.
  - exact IHnode.
  - unfold processZodType_switch; simpl. unfold processObject; simpl.
    destruct (processZodType nodeGetters fuel zString definitions); simpl;
      [|reflexivity].
    rewrite IHopt. reflexivity.
Qed.

(** C9, as stated, fails: in [Node] every self-reference lies below an
    optional wrapper or in an arm of a union that has a base-case arm, and
    yet [compile] returns at no depth of recursion. *)
Lemma C9_guarded_self_reference_counterexample :
  selfReferenceTerminated nodeGetters /\
  forall fuel, zodToJsonSchema nodeGetters fuel Node [] = None.
Proof.
  split.
  - intros g. reflexivity.
  - intros fuel. apply Node_never_returns.
Qed.

(** C9, amended: [compile] terminates on every schema whose unfolding
    through its getters is finite, that is, on the schemas without cyclic
    reference; an optional or union arm on a cycle does not stop the
    recursion. *)
Theorem C9_finite_unfolding_terminates getters schema definitions :
  finiteUnfolding getters schema ->
  exists fuel r, zodToJsonSchema getters fuel schema definitions = Some r.
Proof.
  intros H. exact (finiteUnfolding_returns getters schema H definitions).
Qed.

Lemma C9_finite_unfolding_terminates_witness :
  exists fuel r,
    zodToJsonSchema onceGetters fuel
      (Zod None (ZodArray (Zod None (ZodLazy 0)) None)) [] = Some r.
Proof.
  apply (C9_finite_unfolding_terminates onceGetters).
  constructor; simpl. intros c [<-|[]].
  constructor; simpl. intros c [<-|[]].
  constructor; simpl. intros c [<-|[]].
  constructor; simpl. intros c [].
Defined.

(** The converse: a schema on which [compile] returns unfolds finitely, so
    on a cyclic schema it returns at no depth. *)
Lemma cyclic_never_returns getters schema definitions :
  ~ finiteUnfolding getters schema ->
  forall fuel, zodToJsonSchema getters fuel schema definitions = None.
Proof.
  intros Hinf fuel. unfold zodToJsonSchema.
  destruct (processZodType getters fuel schema definitions) as [r|] eqn:E;
    [|reflexivity].
  exfalso. apply Hinf. eapply returns_finiteUnfolding; eauto.
Qed.

(** ** Tool invocation: order of the callbacks *)

Section ToolInvocationOrder.

Context {TArgs TResult Err World : Type}.

Local Abbreviation ToolDef := (ToolDefinition TArgs TResult Err World).
Local Abbreviation RunState := (Run TArgs TResult Err World).

Ltac split_In :=
  simpl in *;
  repeat match goal with
         | H : _ \/ _ |- _ => destruct H as [H|H]
         | H : False |- _ => destruct H
         end;
  try discriminate;
  repeat match goal with
         | H : OnStartCalled _ = OnStartCalled _ |- _ => injection H as H; subst
         | H : ImplementationCalled _ = ImplementationCalled _ |- _ =>
             injection H as H; subst
         | H : ImplementationResolved _ = ImplementationResolved _ |- _ =>
             injection H as H; subst
         | H : ImplementationRejected _ = ImplementationRejected _ |- _ =>
             injection H as H; subst
         | H : OnCompleteCalled _ _ = OnCompleteCalled _ _ |- _ =>
             injection H as H H'; subst
         end.

Ltac find_before :=
  unfold occursBefore;
  first [ eexists [_], _; split; [reflexivity | simpl; auto; fail]
        | eexists [_; _], _; split; [reflexivity | simpl; auto; fail]
        | eexists [_; _; _], _; split; [reflexivity | simpl; auto; fail] ].

(** The run once [onStart] has returned (or is absent), by the outcome of
    the implementation and of [onComplete]. *)
Lemma executeToolWithDefinition_settled (toolDef : ToolDef) (args : TArgs)
      (r : RunState) (w1 : World) :
  match onStart toolDef with
  | Some start => start args (world r) = (w1, Returned tt)
  | None => w1 = world r
  end ->
  executeToolWithDefinition toolDef args r =
  match implementation toolDef args w1 with
  | (w2, Threw e) =>
      (mkRun w2 (log r ++ startEvents toolDef args
                       ++ [ImplementationCalled args;
                           ImplementationRejected e]),
       Threw e)
  | (w2, Returned result) =>
      match onComplete toolDef with
      | None =>
          (mkRun w2 (log r ++ startEvents toolDef args
                           ++ [ImplementationCalled args;
                               ImplementationResolved result]),
           Returned result)
      | Some complete =>
          (mkRun (fst (complete args result w2))
                 (log r ++ startEvents toolDef args
                        ++ [ImplementationCalled args;
                            ImplementationResolved result;
                            OnCompleteCalled args result]),
           match snd (complete args result w2) with
           | Returned _ => Returned result
           | Threw e => Threw e
           end)
      end
  end.
Proof.
  intros Hstart.
  unfold executeToolWithDefinition, andThen, await, call, record, pure,
    andThen, startEvents.
  destruct (onStart toolDef) as [start|]; simpl;
    [rewrite Hstart | subst w1]; simpl;
    (destruct (implementation toolDef args _) as [w2 [result|e]]; simpl;
     [destruct (onComplete toolDef) as [complete|]; simpl;
      [destruct (complete args result w2) as [w3 [[]|e3]]; simpl|]|]);
    rewrite <- ?app_assoc; reflexivity.
Qed.

(** C3: in every run of [executeToolWithDefinition], [onStart], when
    present, is called, and before the implementation; [onComplete] is
    called only after the implementation has resolved, with the given
    arguments and the resolved result, and when present it is called after
    each resolution; when the implementation rejects, [onComplete] is not
    called and the caller gets the very error of the rejection.  The last
    clause ties this to what the implementation does: once [onStart] has
    returned, a resolution is followed by the call of [onComplete] on the
    world the implementation left, and a rejection ends the run there. *)
Theorem C3_hooks_around_implementation (toolDef : ToolDef) (args : TArgs)
        (r : RunState) :
  exists new,
    log (fst (executeToolWithDefinition toolDef args r)) = log r ++ new /\
    (onStart toolDef <> None ->
     In (OnStartCalled args) new /\
     forall a, In (ImplementationCalled a) new ->
               occursBefore (OnStartCalled args) (ImplementationCalled a) new) /\
    (forall a result, In (OnCompleteCalled a result) new ->
       a = args /\
       occursBefore (ImplementationResolved result)
                    (OnCompleteCalled a result) new) /\
    (onComplete toolDef <> None ->
     forall result, In (ImplementationResolved result) new ->
       occursBefore (ImplementationResolved result)
                    (OnCompleteCalled args result) new) /\
    (forall e, In (ImplementationRejected e) new ->
       (forall a result, ~ In (OnCompleteCalled a result) new) /\
       snd (executeToolWithDefinition toolDef args r) = Threw e) /\
    (forall w1,
        match onStart toolDef with
        | Some start => start args (world r) = (w1, Returned tt)
        | None => w1 = world r
        end ->
        (forall w2 result,
            implementation toolDef args w1 = (w2, Returned result) ->
            new = startEvents toolDef args
                  ++ [ImplementationCalled args; ImplementationResolved result]
                  ++ completeEvents toolDef args result /\
            match onComplete toolDef with
            | Some complete =>
                world (fst (executeToolWithDefinition toolDef args r))
                  = fst (complete args result w2) /\
                (snd (complete args result w2) = Returned tt ->
                 snd (executeToolWithDefinition toolDef args r)
                   = Returned result)
            | None =>
                world (fst (executeToolWithDefinition toolDef args r)) = w2 /\
                snd (executeToolWithDefinition toolDef args r)
                  = Returned result
            end) /\
        (forall w2 e,
            implementation toolDef args w1 = (w2, Threw e) ->
            new = startEvents toolDef args
                  ++ [ImplementationCalled args; ImplementationRejected e] /\
            world (fst (executeToolWithDefinition toolDef args r)) = w2 /\
            snd (executeToolWithDefinition toolDef args r) = Threw e)).
Proof.
  destruct (executeToolWithDefinition_course toolDef args r)
    as (new & Hlog & Hcourse).
  exists new. split; [exact Hlog|].
  match goal with
  | |- ?A /\ ?B /\ ?C /\ ?D /\ ?E =>
      assert (Horder : A /\ B /\ C /\ D); [|assert (Hsettled : E)]
  end.
  - destruct Hcourse as [e Hstart | e | result out Hout];
      unfold startEvents, completeEvents;
      destruct (onStart toolDef) as [start|];
      destruct (onComplete toolDef) as [complete|];
      repeat match goal with
             | |- _ /\ _ => split
             | |- forall _, _ => intro
             | |- ~ _ => intro
             end;
      try congruence; split_In;
      try reflexivity; try (simpl; auto; fail); try find_before.
  - clear Hcourse Horder. intros w1 Hstart.
    pose proof (executeToolWithDefinition_settled toolDef args r w1 Hstart)
      as Hrun.
    split.
    + intros w2 result Himpl. rewrite Himpl in Hrun.
      unfold completeEvents.
      destruct (onComplete toolDef) as [complete|]; rewrite Hrun in *;
        simpl in *; (split; [eapply app_inv_head; rewrite <- Hlog;
                             rewrite <- ?app_assoc; reflexivity|]).
      * split; [reflexivity|]. intros ->. reflexivity.
      * split; reflexivity.
    + intros w2 e Himpl. rewrite Himpl in Hrun. rewrite Hrun in *.
      simpl in *. split; [|split; reflexivity].
      eapply app_inv_head. rewrite <- Hlog. reflexivity.
  - destruct Horder as (HA & HB & HC & HD).
    exact (conj HA (conj HB (conj HC (conj HD Hsettled)))).
Qed.

End ToolInvocationOrder.

Lemma C3_hooks_around_implementation_witness :
  world (fst (executeToolWithDefinition journalTool 1 (mkRun [] []))) =
    ["onStart"; "implementation"; "onComplete"] /\
  log (fst (executeToolWithDefinition journalTool 1 (mkRun [] []))) =
    [OnStartCalled 1; ImplementationCalled 1; ImplementationResolved 2;
     OnCompleteCalled 1 2] /\
  snd (executeToolWithDefinition journalTool 1 (mkRun [] [])) = Returned 2.
Proof.
  destruct (C3_hooks_around_implementation journalTool 1 (mkRun [] []))
    as (new & Hlog & _ & _ & _ & _ & Hsettled).
  destruct (Hsettled ["onStart"] eq_refl) as [Hresolved _].
  destruct (Hresolved ["onStart"; "implementation"] 2 eq_refl)
    as (Hnew & Hworld & Hout).
  split; [exact Hworld|]. split; [|apply Hout; reflexivity].
  rewrite Hlog, Hnew. reflexivity.
Defined.

(** ** Tool invocation: a failing [onStart] *)

(** C4, as stated, fails: with an [onStart] that throws, the run ends with
    the hook's error, the implementation is not called and its result is
    not returned. *)
Lemma C4_failing_onStart_counterexample :
  let run := executeToolWithDefinition failingStart 1 (mkRun tt []) in
  snd run = Threw "render failed" /\
  log (fst run) = [OnStartCalled 1] /\
  ~ In (ImplementationCalled 1) (log (fst run)) /\
  snd run <> Returned 2.
Proof.
  simpl. repeat split.
  - intros [H|[]]. discriminate.
  - discriminate.
Qed.

(** C4, amended: when the [onStart] hook throws, the invocation is blocked:
    nothing is called after the hook, neither the implementation nor
    [onComplete], and [executeToolWithDefinition] rejects with the error the
    hook threw. *)
Theorem C4_failing_onStart_blocks {TArgs TResult Err World : Type}
        (toolDef : ToolDefinition TArgs TResult Err World) (args : TArgs)
        (r : Run TArgs TResult Err World) hook w e :
  onStart toolDef = Some hook ->
  hook args (world r) = (w, Threw e) ->
  executeToolWithDefinition toolDef args r =
  (mkRun w (log r ++ [OnStartCalled args]), Threw e).
Proof.
  intros Hhook Hthrows.
  unfold executeToolWithDefinition, andThen, call, record, andThen.
  rewrite Hhook. simpl. rewrite Hthrows. reflexivity.
Qed.

Lemma C4_failing_onStart_blocks_witness :
  executeToolWithDefinition failingStart 1 (mkRun tt []) =
  (mkRun tt ([] ++ [OnStartCalled 1]), Threw "render failed").
Proof.
  apply (C4_failing_onStart_blocks failingStart 1 (mkRun tt [])
           (fun _ w => (w, Threw "render failed")) tt "render failed");
    reflexivity.
Defined.

(** * Further properties of the compiler *)

(** ** Invariants of every compiled node *)

Lemma allNodes_intro (P : JsonSchema -> Prop) (s : JsonSchema) :
  P s -> (forall c, In c (childSchemas s) -> allNodes P c) -> allNodes P s.
Proof.
  intros Hroot Hbelow n Hn. inversion Hn as [|? c ? Hc Hnc]; subst.
  - exact Hroot.
  - exact (Hbelow c Hc n Hnc).
Qed.

Lemma allNodes_child (P : JsonSchema -> Prop) (s c : JsonSchema) :
  allNodes P s -> In c (childSchemas s) -> allNodes P c.
Proof.
  intros H Hc n Hn. apply H. eapply node_below; eauto.
Qed.

Lemma allNodes_root (P : JsonSchema -> Prop) (s : JsonSchema) :
  allNodes P s -> P s.
Proof. intros H. apply H. constructor. Qed.

Lemma loop_keys_declared compile definitions entries :
  forall props req props' req',
    processObject_loop compile entries definitions props req
      = Some (props', req') ->
    forall k, (In k (Object_keys entries) /\ k <> "__proto__")
              \/ lookup k props <> None ->
              lookup k props' <> None.
Proof.
  induction entries as [|[key v] entries IH]; simpl;
    intros props req props' req' H k Hk.
  - injection H as <- <-. destruct Hk as [[[] _]|Hk]; exact Hk.
  - inv_bind H. eapply IH; [exact H|].
    destruct Hk as [[[<-|Hk] Hproto]|Hk].
    + right. rewrite lookup_assign_same by exact Hproto. discriminate.
    + left. split; assumption.
    + right. destruct (String.eqb key k) eqn:Ek.
      * apply String.eqb_eq in Ek. subst k.
        destruct (String.eqb key "__proto__") eqn:Ep.
        -- unfold assign. rewrite Ep. exact Hk.
        -- apply String.eqb_neq in Ep.
           rewrite lookup_assign_same by exact Ep. discriminate.
      * apply String.eqb_neq in Ek.
        rewrite lookup_assign_other by exact Ek. exact Hk.
Qed.

Lemma requiredKeys_keys shape k :
  In k (requiredKeys shape) -> In k (Object_keys shape).
Proof.
  intros H. apply requiredKeys_In in H. destruct H as (f & Hin & _).
  unfold Object_keys. apply in_map_iff. exists (k, f). auto.
Qed.

(** [processString] returns [{type: "string"}], with one of the emitted
    formats or none. *)
Lemma processString_cases checks :
  processString checks = set_type "string" emptySchema \/
  exists f, In f emittedFormats /\
            processString checks =
            set_format f (set_type "string" emptySchema).
Proof.
  unfold processString.
  set (step := fun (result : JsonSchema) (check : ZodStringCheck) => _).
  set (base := set_type "string" emptySchema).
  assert (G : forall acc,
             (acc = base \/
              exists f, In f emittedFormats /\ acc = set_format f base) ->
             fold_left step checks acc = base \/
             exists f, In f emittedFormats /\
                       fold_left step checks acc = set_format f base).
  { induction checks as [|c checks IH]; intros acc Hacc; [exact Hacc|].
    simpl. apply IH.
    assert (Hset : forall f, In f emittedFormats ->
                     set_format f acc = base \/
                     exists g, In g emittedFormats /\
                               set_format f acc = set_format g base).
    { intros f Hf. right. exists f. split; [exact Hf|].
      destruct Hacc as [->|(g & _ & ->)]; reflexivity. }
    unfold step.
    repeat match goal with
           | |- context [if ?b then _ else _] => destruct b
           end; try exact Hacc; try (apply Hset; simpl; tauto).
    destruct (version c) as [v|]; [|apply Hset; simpl; tauto].
    destruct (String.eqb v "v6") eqn:Ev.
    - apply String.eqb_eq in Ev. subst v. apply Hset; simpl; tauto.
    - assert (Hv : match v with "v6" => "ipv6" | _ => "ipv4" end = "ipv4").
      { destruct v as [|a0 [|a1 [|a2 v]]]; try reflexivity;
          destruct a0 as [[] [] [] [] [] [] [] []]; try reflexivity;
          destruct a1 as [[] [] [] [] [] [] [] []]; try reflexivity.
        cbv in Ev. discriminate Ev. }
      rewrite Hv. apply Hset; simpl; tauto. }
  apply G. left; reflexivity.
Qed.

Ltac wf_unfold :=
  unfold nodeWellFormed, noReferences, minItemsSupported, formatOnString,
    requiredDeclared.

(** A node with no [minItems], [format] or [required], and none of the
    fields the compiler never writes. *)
Lemma nodeWellFormed_plain (n : JsonSchema) :
  ref n = None -> defs n = None -> definitions n = None -> nullable n = None ->
  minItems n = None -> format n = None -> required n = None ->
  nodeWellFormed n.
Proof.
  intros Hr Hd Hdd Hn Hm Hf Hq. wf_unfold.
  rewrite Hr, Hd, Hdd, Hn, Hm, Hf, Hq.
  split; [repeat split|]. split; [left; reflexivity|].
  split; intros x Hx; discriminate Hx.
Qed.

Lemma nodeWellFormed_format (n : JsonSchema) (f : string) :
  ref n = None -> defs n = None -> definitions n = None -> nullable n = None ->
  minItems n = None -> required n = None ->
  type n = Some "string" -> format n = Some f -> In f emittedFormats ->
  nodeWellFormed n.
Proof.
  intros Hr Hd Hdd Hn Hm Hq Ht Hf Hin. wf_unfold.
  rewrite Hr, Hd, Hdd, Hn, Hm, Hf, Hq, Ht.
  split; [repeat split|]. split; [left; reflexivity|]. split.
  - intros g Hg. injection Hg as <-. split; [reflexivity | exact Hin].
  - intros x Hx; discriminate Hx.
Qed.

Lemma nodeWellFormed_minItems (n : JsonSchema) (m : Z) :
  ref n = None -> defs n = None -> definitions n = None -> nullable n = None ->
  format n = None -> required n = None ->
  type n = Some "array" -> minItems n = Some m ->
  (m = 0 \/ m = 1)%Z ->
  nodeWellFormed n.
Proof.
  intros Hr Hd Hdd Hn Hf Hq Ht Hm Hcases. wf_unfold.
  rewrite Hr, Hd, Hdd, Hn, Hm, Hf, Hq, Ht.
  split; [repeat split|]. split.
  - right. split; [reflexivity|]. destruct Hcases as [->| ->]; auto.
  - split; intros x Hx; discriminate Hx.
Qed.

Lemma nodeWellFormed_object (n : JsonSchema) props req :
  ref n = None -> defs n = None -> definitions n = None -> nullable n = None ->
  format n = None -> minItems n = None ->
  properties n = Some props ->
  required n = (if (0 <? length req)%nat then Some req else None) ->
  (forall k, In k req -> k <> "__proto__" -> lookup k props <> None) ->
  nodeWellFormed n.
Proof.
  intros Hr Hd Hdd Hn Hf Hm Hp Hq Hdecl. wf_unfold.
  rewrite Hr, Hd, Hdd, Hn, Hm, Hf, Hq, Hp.
  split; [repeat split|]. split; [left; reflexivity|]. split.
  - intros x Hx; discriminate Hx.
  - intros keys Hkeys. destruct req as [|k0 req]; [discriminate Hkeys|].
    simpl in Hkeys. injection Hkeys as <-. split; [discriminate|].
    exists props. split; [reflexivity | exact Hdecl].
Qed.

Lemma nodeWellFormed_same (s s' : JsonSchema) :
  ref s' = ref s -> defs s' = defs s -> definitions s' = definitions s ->
  nullable s' = nullable s -> minItems s' = minItems s -> type s' = type s ->
  format s' = format s -> required s' = required s ->
  properties s' = properties s ->
  nodeWellFormed s -> nodeWellFormed s'.
Proof.
  wf_unfold. intros -> -> -> -> -> -> -> -> ->. exact (fun H => H).
Qed.

Lemma allNodes_same (s s' : JsonSchema) :
  ref s' = ref s -> defs s' = defs s -> definitions s' = definitions s ->
  nullable s' = nullable s -> minItems s' = minItems s -> type s' = type s ->
  format s' = format s -> required s' = required s ->
  properties s' = properties s ->
  childSchemas s' = childSchemas s ->
  allNodes nodeWellFormed s -> allNodes nodeWellFormed s'.
Proof.
  intros H1 H2 H3 H4 H5 H6 H7 H8 H9 Hc H. apply allNodes_intro.
  - apply (nodeWellFormed_same s); auto. apply allNodes_root; exact H.
  - rewrite Hc. intros c Hin. eapply allNodes_child; eauto.
Qed.

Lemma allNodes_attachDescription zodValue s :
  allNodes nodeWellFormed s ->
  allNodes nodeWellFormed (attachDescription zodValue s).
Proof.
  unfold attachDescription. destruct (_description zodValue) as [d|]; auto.
  destruct (truthy (Some d)); auto.
  apply allNodes_same; reflexivity.
Qed.

Lemma Forall2_allNodes {A : Type} (P : JsonSchema -> Prop)
      (f : A -> option JsonSchema) xs ys :
  (forall x r, f x = Some r -> allNodes P r) ->
  Forall2 (fun x y => f x = Some y) xs ys ->
  forall c, In c ys -> allNodes P c.
Proof.
  intros Hf H. induction H as [|x y xs ys Hxy _ IH]; intros c Hc.
  - contradiction.
  - destruct Hc as [<-|Hc]; eauto.
Qed.

Section WellFormedSwitch.

Variable getters : nat -> ZodType.
Variable compile : ZodType -> Definitions -> option JsonSchema.
Hypothesis compile_wf : forall schema definitions r,
  compile schema definitions = Some r ->
  allNodes nodeWellFormed r /\ description r = None.

Ltac leaf :=
  split; [|reflexivity];
  apply allNodes_intro;
  [ apply nodeWellFormed_plain; reflexivity
  | intros c Hc; children_in Hc; tauto ].

Lemma switch_wellFormed schema definitions r :
  processZodType_switch getters compile schema definitions = Some r ->
  allNodes nodeWellFormed r /\ description r = None.
Proof.
  unfold processZodType_switch.
  destruct (_def schema) eqn:Hdef;
    unfold processArray, processObject, processUnion,
      processDiscriminatedUnion, processIntersection, processTuple,
      processRecord, processOptional, processNullable, processDefault,
      processLiteral, processEnum, processNativeEnum;
    intros H;
    repeat match type of H with
           | bind _ _ = Some _ => inv_bind H
           end;
    try (eapply compile_wf; eassumption);
    try (injection H as <-; leaf).
  - (* string *)
    injection H as <-.
    destruct (processString_cases checks) as [->|(f & Hf & ->)]; [leaf|].
    split; [|reflexivity]. apply allNodes_intro.
    + apply (nodeWellFormed_format _ f); try reflexivity. exact Hf.
    + intros c Hc; children_in Hc; tauto.
  - (* array *)
    injection H as <-. destruct (compile_wf _ _ _ E) as [Hx _].
    assert (Hchild : forall c,
               In c (childSchemas
                       (set_items x (set_type "array" emptySchema))) ->
               allNodes nodeWellFormed c).
    { intros c Hc. children_in Hc. destruct Hc as [<-|[]]. exact Hx. }
    destruct minLength as [n|];
      [destruct ((n =? 0)%Z || (n =? 1)%Z) eqn:En|];
      (split; [|reflexivity]); apply allNodes_intro; try exact Hchild;
      try (apply nodeWellFormed_plain; reflexivity).
    apply (nodeWellFormed_minItems _ n); try reflexivity.
    apply orb_true_iff in En. rewrite !Z.eqb_eq in En. exact En.
  - (* object *)
    destruct x as [props req]. injection H as <-.
    split; [|reflexivity]. apply allNodes_intro.
    + apply (nodeWellFormed_object _ props req); try reflexivity.
      intros k Hk Hproto.
      pose proof (loop_required _ _ _ _ _ _ _ E) as Hreq. simpl in Hreq.
      subst req.
      eapply loop_keys_declared; [exact E|].
      left. split; [apply requiredKeys_keys; exact Hk | exact Hproto].
    + intros c Hc. children_in Hc.
      destruct (loop_values _ _ _ _ _ _ _ E c Hc)
        as [[]|(kv & c0 & _ & Hc0 & ->)].
      apply allNodes_attachDescription. eapply compile_wf; eauto.
  - (* union *)
    injection H as <-. split; [|reflexivity]. apply allNodes_intro.
    + apply nodeWellFormed_plain; reflexivity.
    + intros c Hc. children_in Hc.
      eapply (Forall2_allNodes _ _ _ _
                (fun x r Hx => proj1 (compile_wf x definitions r Hx)));
        [apply mapM_Some; eassumption | exact Hc].
  - (* discriminated union *)
    injection H as <-. split; [|reflexivity]. apply allNodes_intro.
    + apply nodeWellFormed_plain; reflexivity.
    + intros c Hc. children_in Hc.
      eapply (Forall2_allNodes _ _ _ _
                (fun x r Hx => proj1 (compile_wf x definitions r Hx)));
        [apply mapM_Some; eassumption | exact Hc].
  - (* intersection *)
    injection H as <-. split; [|reflexivity]. apply allNodes_intro.
    + apply nodeWellFormed_plain; reflexivity.
    + intros c Hc. children_in Hc.
      destruct Hc as [<-|[<-|[]]]; eapply compile_wf; eauto.
  - (* tuple *)
    injection H as <-.
    assert (Hall : forall c, In c x -> allNodes nodeWellFormed c).
    { eapply (Forall2_allNodes _ _ _ _
                (fun x r Hx => proj1 (compile_wf x definitions r Hx))).
      apply mapM_Some; eassumption. }
    split; [|reflexivity]. apply allNodes_intro.
    + apply nodeWellFormed_plain; reflexivity.
    + intros c Hc. children_in Hc. destruct Hc as [<-|[]].
      destruct x as [|a [|b x]].
      * apply allNodes_intro;
          [apply nodeWellFormed_plain; reflexivity
          | intros c Hc; children_in Hc; tauto].
      * apply Hall; simpl; auto.
      * apply allNodes_intro; [apply nodeWellFormed_plain; reflexivity|].
        intros c Hc. children_in Hc. apply Hall. exact Hc.
  - (* nullable *)
    injection H as <-. split; [|reflexivity]. apply allNodes_intro.
    + apply nodeWellFormed_plain; reflexivity.
    + intros c Hc. children_in Hc. destruct Hc as [<-|[<-|[]]].
      * eapply compile_wf; eauto.
      * apply allNodes_intro;
          [apply nodeWellFormed_plain; reflexivity
          | intros c Hc; children_in Hc; tauto].
  - (* default *)
    injection H as <-. destruct (compile_wf _ _ _ E) as [Hx Hd].
    split; [|exact Hd].
    apply (allNodes_same x); try reflexivity. exact Hx.
  - (* date *)
    injection H as <-. split; [|reflexivity]. apply allNodes_intro.
    + apply (nodeWellFormed_format _ "date-time"); try reflexivity.
      simpl; tauto.
    + intros c Hc; children_in Hc; tauto.
Qed.

End WellFormedSwitch.

Lemma processZodType_wellFormed getters fuel : forall schema definitions r,
  processZodType getters fuel schema definitions = Some r ->
  allNodes nodeWellFormed r /\ description r = None.
Proof.
  induction fuel as [|fuel IH]; intros schema definitions r H; [discriminate|].
  rewrite processZodType_S in H.
  eapply switch_wellFormed; [exact IH | exact H].
Qed.

(** ** Schemas written without [z.lazy] *)

Lemma depth_in_list {A : Type} (f : A -> nat) (l : list A) (x : A) :
  In x l -> f x <= list_max (map f l).
Proof.
  intros Hin.
  assert (H : Forall (fun k => k <= list_max (map f l)) (map f l)).
  { apply list_max_le. apply Nat.le_refl. }
  rewrite Forall_forall in H. apply H. apply in_map. exact Hin.
Qed.

Lemma visited_lazyFree getters description_ d c :
  lazyFree (Zod description_ d) = true ->
  In c (visited getters d) ->
  depth c < depth (Zod description_ d) /\ lazyFree c = true.
Proof.
  destruct d; simpl; intros Hfree Hc; try contradiction; try discriminate;
    repeat match goal with
           | H : _ && _ = true |- _ => apply andb_true_iff in H; destruct H
           end;
    try (destruct Hc as [<-|[<-|[]]]; (split; [lia | assumption]));
    try (destruct Hc as [<-|[]]; (split; [lia | assumption])).
  1: { (* object *)
    unfold Object_values in Hc. apply in_map_iff in Hc.
    destruct Hc as ([k v] & <- & Hin). simpl. split.
    + pose proof (depth_in_list (fun kv => depth (snd kv)) shape (k, v) Hin).
      simpl in *. lia.
    + rewrite forallb_forall in Hfree. exact (Hfree (k, v) Hin). }
  all: match type of Hfree with
       | forallb lazyFree ?l = true =>
           split; [pose proof (depth_in_list depth l c Hc); lia|];
           rewrite forallb_forall in Hfree; auto
       end.
Qed.

Lemma lazyFree_returns getters definitions fuel : forall schema,
  depth schema <= fuel ->
  lazyFree schema = true ->
  exists r, processZodType getters fuel schema definitions = Some r.
Proof.
  induction fuel as [|fuel IH]; intros [description_ d] Hdepth Hfree.
  - simpl in Hdepth. lia.
  - rewrite processZodType_S. apply switch_total. simpl. intros c Hc.
    destruct (visited_lazyFree getters description_ d c Hfree Hc)
      as [Hlt Hc_free].
    apply IH; [lia | exact Hc_free].
Qed.

(** ** One property per field *)



(** ** The [definitions] argument *)

Section SameCalls.

Variables compile1 compile2 : ZodType -> Definitions -> option JsonSchema.
Variables definitions1 definitions2 : Definitions.
Hypothesis same : forall schema,
  compile1 schema definitions1 = compile2 schema definitions2.

Lemma mapM_same xs :
  mapM (fun x => compile1 x definitions1) xs =
  mapM (fun x => compile2 x definitions2) xs.
Proof.
  induction xs as [|x xs IH]; simpl; [reflexivity|].
  rewrite same, IH. reflexivity.
Qed.

Lemma loop_same entries : forall props req,
  processObject_loop compile1 entries definitions1 props req =
  processObject_loop compile2 entries definitions2 props req.
Proof.
  induction entries as [|[k v] entries IH]; simpl; intros props req;
    [reflexivity|].
  rewrite same. destruct (compile2 v definitions2); simpl; auto.
Qed.

Lemma switch_same getters schema :
  processZodType_switch getters compile1 schema definitions1 =
  processZodType_switch getters compile2 schema definitions2.
Proof.
  unfold processZodType_switch.
  destruct (_def schema); auto;
    unfold processArray, processObject, processUnion,
      processDiscriminatedUnion, processIntersection, processTuple,
      processOptional, processNullable, processDefault;
    rewrite ?same, ?mapM_same, ?loop_same; reflexivity.
Qed.

End SameCalls.

Lemma processZodType_definitions getters fuel :
  forall schema definitions1 definitions2,
    processZodType getters fuel schema definitions1 =
    processZodType getters fuel schema definitions2.
Proof.
  induction fuel as [|fuel IH]; intros schema d1 d2; [reflexivity|].
  rewrite !processZodType_S. apply switch_same. intros s. apply IH.
Qed.

(** ** Statements about every compiled schema *)

(** The compiler never writes [$ref], [$defs], [definitions] or [nullable]:
    no node of a compiled schema, at any depth, carries one of them. *)
Theorem compiled_nodes_hold_no_reference getters schema passed r :
  compiles getters schema passed r ->
  forall n, nodeOf n r ->
    ref n = None /\ defs n = None /\ definitions n = None /\
    nullable n = None.
Proof.
  intros [fuel H] n Hn.
  destruct (processZodType_wellFormed _ _ _ _ _ H) as [Hall _].
  exact (proj1 (Hall n Hn)).
Qed.

Lemma compiled_nodes_hold_no_reference_witness :
  exists r,
    zodToJsonSchema noGetters 3 plainObject [] = Some r /\
    forall n, nodeOf n r ->
      ref n = None /\ defs n = None /\ definitions n = None /\
      nullable n = None.
Proof.
  eexists. split; [reflexivity|].
  apply (compiled_nodes_hold_no_reference noGetters plainObject []).
  exists 3. reflexivity.
Defined.

(** At every node of a compiled schema, [minItems] is absent unless the
    node is an array, and then it is 0 or 1: larger minimum lengths are
    dropped at any depth. *)
Theorem compiled_minItems_zero_or_one getters schema definitions r :
  compiles getters schema definitions r ->
  forall n m, nodeOf n r -> minItems n = Some m ->
    type n = Some "array" /\ (m = 0 \/ m = 1)%Z.
Proof.
  intros [fuel H] n m Hn Hm.
  destruct (processZodType_wellFormed _ _ _ _ _ H) as [Hall _].
  destruct (Hall n Hn) as (_ & [Hnone|(Ht & Hcases)] & _).
  - rewrite Hm in Hnone. discriminate.
  - split; [exact Ht|]. rewrite Hm in Hcases.
    destruct Hcases as [E|E]; injection E as ->; auto.
Qed.

Lemma compiled_minItems_zero_or_one_witness :
  exists r,
    zodToJsonSchema noGetters 4 nestedRecords [] = Some r /\
    forall n m, nodeOf n r -> minItems n = Some m ->
      type n = Some "array" /\ (m = 0 \/ m = 1)%Z.
Proof.
  eexists. split; [reflexivity|].
  apply (compiled_minItems_zero_or_one noGetters nestedRecords []).
  exists 4. reflexivity.
Defined.

(** At every node of a compiled schema, a [format] sits on a node of type
    [string] and is one of [email], [uri], [uuid], [date-time], [date],
    [time], [ipv6], [ipv4]. *)
Theorem compiled_format_on_strings_only getters schema definitions r :
  compiles getters schema definitions r ->
  forall n f, nodeOf n r -> format n = Some f ->
    type n = Some "string" /\ In f emittedFormats.
Proof.
  intros [fuel H] n f Hn Hf.
  destruct (processZodType_wellFormed _ _ _ _ _ H) as [Hall _].
  destruct (Hall n Hn) as (_ & _ & Hformat & _). exact (Hformat f Hf).
Qed.

Lemma compiled_format_on_strings_only_witness :
  exists r,
    zodToJsonSchema noGetters 2
      (Zod None (ZodArray (Zod None (ZodString [mkCheck "ip" (Some "v6")]))
                          None)) [] = Some r /\
    forall n f, nodeOf n r -> format n = Some f ->
      type n = Some "string" /\ In f emittedFormats.
Proof.
  eexists. split; [reflexivity|].
  apply (compiled_format_on_strings_only noGetters
           (Zod None (ZodArray (Zod None (ZodString [mkCheck "ip" (Some "v6")]))
                               None)) []).
  exists 2. reflexivity.
Defined.

(** At every node of a compiled schema, a [required] list is never empty,
    and every key it names other than [__proto__] is a declared property of
    that node.  (A field keyed [__proto__] is pushed on [required] like any
    other, but the assignment to [properties] declares nothing for it.) *)
Theorem compiled_required_declared getters schema definitions r :
  compiles getters schema definitions r ->
  forall n keys, nodeOf n r -> required n = Some keys ->
    keys <> [] /\
    exists props, properties n = Some props /\
                  forall k, In k keys -> k <> "__proto__" ->
                            lookup k props <> None.
Proof.
  intros [fuel H] n keys Hn Hkeys.
  destruct (processZodType_wellFormed _ _ _ _ _ H) as [Hall _].
  destruct (Hall n Hn) as (_ & _ & _ & Hreq). exact (Hreq keys Hkeys).
Qed.

Lemma compiled_required_declared_witness :
  exists r,
    zodToJsonSchema noGetters 4 nestedRecords [] = Some r /\
    forall n keys, nodeOf n r -> required n = Some keys ->
      keys <> [] /\
      exists props, properties n = Some props /\
                    forall k, In k keys -> k <> "__proto__" ->
                              lookup k props <> None.
Proof.
  eexists. split; [reflexivity|].
  apply (compiled_required_declared noGetters nestedRecords []).
  exists 4. reflexivity.
Defined.

(** A field keyed [__proto__] is required without being declared. *)
Example protoField_compiled :
  processZodType noGetters 2 protoField [] =
  Some (objectSchema [("a", set_type "number" emptySchema)]
                     ["__proto__"; "a"]).
Proof. reflexivity. Qed.

(** The description of the schema handed to the compiler is dropped: the
    root of the result has no [description], whatever the schema carries. *)
Theorem compiled_root_has_no_description getters schema definitions r :
  compiles getters schema definitions r -> description r = None.
Proof.
  intros [fuel H]. exact (proj2 (processZodType_wellFormed _ _ _ _ _ H)).
Qed.

Lemma compiled_root_has_no_description_witness :
  description (set_type "string" emptySchema) = None.
Proof.
  apply (compiled_root_has_no_description noGetters
           (zDescribe "a name" zString) []).
  exists 1. reflexivity.
Defined.

(** The [definitions] argument is never read: the result is the same
    whatever is passed for it. *)
Theorem definitions_ignored getters schema definitions1 definitions2 r :
  compiles getters schema definitions1 r ->
  compiles getters schema definitions2 r.
Proof.
  intros [fuel H]. exists fuel.
  rewrite (processZodType_definitions getters fuel schema definitions2
             definitions1).
  exact H.
Qed.

Lemma definitions_ignored_witness :
  compiles noGetters zString [("known", set_type "number" emptySchema)]
           (set_type "string" emptySchema).
Proof.
  apply (definitions_ignored noGetters zString []).
  exists 1. reflexivity.
Defined.

(** A schema written without [z.lazy] always compiles, and the recursion
    goes no deeper than the schema is nested, whatever getters exist. *)
Theorem lazyFree_compiles_within_depth getters schema definitions :
  lazyFree schema = true ->
  exists r, processZodType getters (depth schema) schema definitions = Some r.
Proof.
  intros Hfree. apply lazyFree_returns; [apply Nat.le_refl | exact Hfree].
Qed.

Lemma lazyFree_compiles_within_depth_witness :
  exists r, processZodType nodeGetters (depth nestedRecords) nestedRecords []
            = Some r.
Proof.
  apply (lazyFree_compiles_within_depth nodeGetters nestedRecords []).
  reflexivity.
Defined.

(** ** Objects *)



(** The description a compiled property carries is the non-empty
    description of the field itself and nothing else: an empty description
    is dropped, and so is any description of the schema the field wraps.
    (A field keyed [__proto__] has no property.) *)
Theorem property_description_is_the_fields getters d shape key field
        definitions r :
  compiles getters (Zod d (ZodObject shape)) definitions r ->
  NoDup (Object_keys shape) ->
  In (key, field) shape ->
  key <> "__proto__" ->
  exists props property,
    properties r = Some props /\
    lookup key props = Some property /\
    description property =
      (if truthy (_description field) then _description field else None).
Proof.
  intros Hr Hnd Hin Hkey.
  destruct (compiles_object_field getters (Zod d (ZodObject shape)) shape
              definitions r key field eq_refl Hr Hnd Hin)
    as (props & c & -> & Hc & Hl).
  exists props, (attachDescription field c).
  split; [reflexivity|]. split; [exact (Hl Hkey)|].
  assert (Hnone : description c = None).
  { destruct Hc as [fuel Hfuel].
    exact (proj2 (processZodType_wellFormed _ _ _ _ _ Hfuel)). }
  unfold attachDescription.
  destruct (_description field) as [s|]; [|exact Hnone].
  destruct (truthy (Some s)); [reflexivity | exact Hnone].
Qed.

Lemma property_description_is_the_fields_witness :
  exists props property,
    properties (objectSchema
                  [("c", set_description "flag"
                           (nullableOf (set_type "boolean" emptySchema)))]
                  ["c"]) = Some props /\
    lookup "c" props = Some property /\
    description property =
      (if truthy (_description (zDescribe "flag" (zNullable zBoolean)))
       then _description (zDescribe "flag" (zNullable zBoolean)) else None).
Proof.
  apply (property_description_is_the_fields noGetters None
           [("c", zDescribe "flag" (zNullable zBoolean))] "c"
           (zDescribe "flag" (zNullable zBoolean)) []).
  - exists 3. reflexivity.
  - unfold Object_keys; simpl.
    repeat (constructor; [simpl; intuition discriminate|]). constructor.
  - simpl; auto.
  - discriminate.
Defined.

(** ** Unions, tuples and wrappers *)

(** A union compiles to [{anyOf: [...]}] holding what each option compiles
    to, one entry per option and in the order of the options; the same
    holds of a discriminated union. *)
Theorem union_options_in_order getters schema options definitions r :
  (_def schema = ZodUnion options \/
   exists discriminator,
     _def schema = ZodDiscriminatedUnion discriminator options) ->
  compiles getters schema definitions r ->
  exists compiled,
    r = set_anyOf compiled emptySchema /\
    Forall2 (fun option_ c => compiles getters option_ definitions c)
            options compiled.
Proof.
  intros Hdef H. apply compiles_switch in H. destruct H as [fuel H].
  unfold processZodType_switch in H.
  assert (Hmap : exists compiled,
             mapM (fun opt => processZodType getters fuel opt definitions)
                  options = Some compiled /\
             r = set_anyOf compiled emptySchema).
  { destruct Hdef as [Hdef|[disc Hdef]]; rewrite Hdef in H;
      unfold processUnion, processDiscriminatedUnion in H;
      inv_bind H; injection H as <-; eauto. }
  destruct Hmap as (compiled & Hmap & ->).
  exists compiled. split; [reflexivity|].
  apply mapM_Some in Hmap.
  eapply Forall2_impl; [|exact Hmap].
  intros o c Hc. exists fuel. exact Hc.
Qed.

Lemma union_options_in_order_witness :
  exists compiled,
    set_anyOf [set_type "string" emptySchema; set_type "number" emptySchema]
              emptySchema = set_anyOf compiled emptySchema /\
    Forall2 (fun option_ c => compiles noGetters option_ [] c)
            [zString; zNumber] compiled.
Proof.
  apply (union_options_in_order noGetters
           (Zod None (ZodUnion [zString; zNumber])) [zString; zNumber] []).
  - left. reflexivity.
  - exists 2. reflexivity.
Defined.

(** The discriminator of a discriminated union leaves no trace: the union
    compiles to what the plain union of the same options compiles to. *)
Theorem discriminator_not_encoded getters d1 d2 discriminator options
        definitions r :
  compiles getters (Zod d1 (ZodDiscriminatedUnion discriminator options))
           definitions r <->
  compiles getters (Zod d2 (ZodUnion options)) definitions r.
Proof.
  split; intros [[|fuel] H]; try discriminate; exists (S fuel); exact H.
Qed.

(** A tuple of one element compiles to what the array of that element
    compiles to. *)
Theorem single_tuple_as_array getters d1 d2 element definitions r :
  compiles getters (Zod d1 (ZodTuple [element])) definitions r <->
  compiles getters (Zod d2 (ZodArray element None)) definitions r.
Proof.
  split; intros [[|fuel] H]; try discriminate; exists (S fuel);
    rewrite processZodType_S in *;
    unfold processZodType_switch, processTuple, processArray in *;
    simpl in *;
    destruct (processZodType getters fuel element definitions);
    simpl in *; exact H.
Qed.

(** Optional, effects, lazy, branded, catch and readonly wrappers compile
    to exactly what the schema they wrap (or their getter returns) compiles
    to, and a pipeline to what its output side compiles to. *)
Theorem wrappers_are_transparent getters schema inner definitions r :
  compiledAs getters (_def schema) = Some inner ->
  (compiles getters schema definitions r <->
   compiles getters inner definitions r).
Proof.
  intros Hdef. split.
  - intros H. apply compiles_switch in H. destruct H as [fuel H].
    exists fuel. unfold processZodType_switch, processOptional in H.
    destruct (_def schema); try discriminate;
      simpl in Hdef; injection Hdef as <-; exact H.
  - intros [fuel H]. exists (S fuel). rewrite processZodType_S.
    unfold processZodType_switch, processOptional.
    destruct (_def schema); try discriminate;
      simpl in Hdef; injection Hdef as <-; exact H.
Qed.

Lemma wrappers_are_transparent_witness :
  compiles noGetters
    (Zod None (ZodPipeline zNumber (Zod None (ZodEffects zString)))) []
    (set_type "string" emptySchema) <->
  compiles noGetters (Zod None (ZodEffects zString)) []
    (set_type "string" emptySchema).
Proof.
  apply (wrappers_are_transparent noGetters
           (Zod None (ZodPipeline zNumber (Zod None (ZodEffects zString))))).
  reflexivity.
Defined.

(** ** The response format *)

Lemma objectsClosed_wrappedResult root :
  objectsClosed root -> objectsClosed (wrappedResult root).
Proof.
  intros H. apply objectsClosed_intro; [reflexivity|].
  intros c Hc. children_in Hc. destruct Hc as [<-|[]]. exact H.
Qed.

(** Whenever the schema compiles, [createAnthropicOutputFormat] returns a
    [json_schema] format whose schema is an object closed against further
    properties, as is every object below it; a root that is an object
    already is passed on unchanged. *)
Theorem output_format_is_closed_object getters schema name root :
  compiles getters schema [] root ->
  exists fuel out,
    createAnthropicOutputFormat getters fuel schema name = Some out /\
    of_type out = "json_schema" /\
    type (of_schema out) = Some "object" /\
    additionalProperties (of_schema out) = Some false /\
    objectsClosed (of_schema out) /\
    (type root = Some "object" -> of_schema out = root).
Proof.
  intros [fuel H].
  pose proof (processZodType_closed _ _ _ _ _ H) as Hclosed.
  exists fuel. unfold createAnthropicOutputFormat, zodToJsonSchema.
  rewrite H; simpl.
  destruct (type root) as [t|] eqn:Et.
  - destruct (String.eqb t "object") eqn:E; simpl.
    + apply String.eqb_eq in E. subst t.
      eexists. split; [reflexivity|]. simpl.
      repeat split; auto. apply Hclosed; [constructor | exact Et].
    + eexists. split; [reflexivity|]. simpl.
      repeat split; auto.
      * apply objectsClosed_wrappedResult; exact Hclosed.
      * intros Ht. injection Ht as ->. discriminate E.
  - eexists. split; [reflexivity|]. simpl.
    repeat split; auto.
    + apply objectsClosed_wrappedResult; exact Hclosed.
    + intros Ht. discriminate Ht.
Qed.

Lemma output_format_is_closed_object_witness :
  exists fuel out,
    createAnthropicOutputFormat noGetters fuel plainObject (Some "answer")
      = Some out /\
    of_type out = "json_schema" /\
    type (of_schema out) = Some "object" /\
    additionalProperties (of_schema out) = Some false /\
    objectsClosed (of_schema out) /\
    (type (objectSchema
             [("a", set_type "string" emptySchema);
              ("b", set_type "number" emptySchema);
              ("c", nullableOf (set_type "boolean" emptySchema))]
             ["a"; "c"]) = Some "object" ->
     of_schema out =
     objectSchema [("a", set_type "string" emptySchema);
                   ("b", set_type "number" emptySchema);
                   ("c", nullableOf (set_type "boolean" emptySchema))]
                  ["a"; "c"]).
Proof.
  apply (output_format_is_closed_object noGetters plainObject (Some "answer")).
  exists 3. reflexivity.
Defined.

(** ** String formats *)

Lemma processString_step (acc : JsonSchema) (check : ZodStringCheck) :
  (if String.eqb (kind check) "email" then set_format "email" acc
   else if String.eqb (kind check) "url" then set_format "uri" acc
   else if String.eqb (kind check) "uuid" then set_format "uuid" acc
   else if String.eqb (kind check) "datetime" then set_format "date-time" acc
   else if String.eqb (kind check) "date" then set_format "date" acc
   else if String.eqb (kind check) "time" then set_format "time" acc
   else if String.eqb (kind check) "ip"
        then set_format (match version check with
                         | Some "v6" => "ipv6"
                         | _ => "ipv4"
                         end) acc
   else acc) =
  match formatOf check with
  | Some f => set_format f acc
  | None => acc
  end.
Proof.
  unfold formatOf.
  repeat match goal with
         | |- context [String.eqb ?a ?b] => destruct (String.eqb a b)
         end; reflexivity.
Qed.

Lemma processString_fold checks : forall acc,
  fold_left
    (fun result check =>
       if String.eqb (kind check) "email" then set_format "email" result
       else if String.eqb (kind check) "url" then set_format "uri" result
       else if String.eqb (kind check) "uuid" then set_format "uuid" result
       else if String.eqb (kind check) "datetime"
            then set_format "date-time" result
       else if String.eqb (kind check) "date" then set_format "date" result
       else if String.eqb (kind check) "time" then set_format "time" result
       else if String.eqb (kind check) "ip"
            then set_format
                   (match version check with
                    | Some "v6" => "ipv6"
                    | _ => "ipv4"
                    end) result
       else result) checks acc =
  fold_left (fun result check => match formatOf check with
                                 | Some f => set_format f result
                                 | None => result
                                 end) checks acc.
Proof.
  induction checks as [|c checks IH]; intros acc; simpl; [reflexivity|].
  rewrite processString_step. apply IH.
Qed.

(** When a string schema has several checks, the last format check decides
    the [format], and checks of another kind (lengths, patterns) leave no
    trace; without a format check the result is [{type: "string"}]. *)
Theorem string_format_last_check_wins :
  (forall before check after f,
      formatOf check = Some f ->
      Forall (fun c => formatOf c = None) after ->
      processString (before ++ check :: after) =
      set_format f (set_type "string" emptySchema)) /\
  (forall checks,
      Forall (fun c => formatOf c = None) checks ->
      processString checks = set_type "string" emptySchema).
Proof.
  assert (Hnone : forall checks acc,
             Forall (fun c => formatOf c = None) checks ->
             fold_left (fun result check => match formatOf check with
                                            | Some f => set_format f result
                                            | None => result
                                            end) checks acc = acc).
  { induction checks as [|c checks IH]; intros acc H; [reflexivity|].
    inversion H as [|? ? Hc Hrest]; subst. simpl. rewrite Hc. auto. }
  split.
  - intros before check after f Hf Hafter.
    unfold processString. rewrite processString_fold.
    rewrite fold_left_app. simpl. rewrite Hf. rewrite Hnone by exact Hafter.
    destruct (processString_cases before) as [E|(g & _ & E)];
      unfold processString in E; rewrite processString_fold in E;
      rewrite E; reflexivity.
  - intros checks H. unfold processString. rewrite processString_fold.
    apply Hnone. exact H.
Qed.

Lemma string_format_last_check_wins_witness :
  processString ([mkCheck "email" None; mkCheck "min" None]
                   ++ mkCheck "url" None :: [mkCheck "max" None]) =
  set_format "uri" (set_type "string" emptySchema).
Proof.
  apply (proj1 string_format_last_check_wins
           [mkCheck "email" None; mkCheck "min" None] (mkCheck "url" None)
           [mkCheck "max" None] "uri").
  - reflexivity.
  - repeat constructor.
Defined.

(** * Further properties of tool invocation *)

Section ToolInvocationResults.

Context {TArgs TResult Err World : Type}.

Local Abbreviation ToolDef := (ToolDefinition TArgs TResult Err World).
Local Abbreviation RunState := (Run TArgs TResult Err World).


(** When [onComplete] throws, the caller gets the hook's error in place of
    the result, although the implementation has resolved and its effects
    have taken place. *)
Theorem onComplete_failure_replaces_result (toolDef : ToolDef)
        (args : TArgs) (r : RunState) hook w1 w2 w3 result e :
  match onStart toolDef with
  | Some start => start args (world r) = (w1, Returned tt)
  | None => w1 = world r
  end ->
  implementation toolDef args w1 = (w2, Returned result) ->
  onComplete toolDef = Some hook ->
  hook args result w2 = (w3, Threw e) ->
  executeToolWithDefinition toolDef args r =
  (mkRun w3 (log r ++ startEvents toolDef args
                   ++ [ImplementationCalled args;
                       ImplementationResolved result;
                       OnCompleteCalled args result]),
   Threw e).
Proof.
  intros Hstart Himpl Hhook Hthrows.
  unfold executeToolWithDefinition, andThen, await, call, record, pure,
    andThen, startEvents.
  destruct (onStart toolDef) as [start|]; simpl.
  - rewrite Hstart; simpl. rewrite Himpl; simpl. rewrite Hhook; simpl.
    rewrite Hthrows. rewrite <- !app_assoc. reflexivity.
  - subst w1. rewrite Himpl; simpl. rewrite Hhook; simpl.
    rewrite Hthrows. rewrite <- !app_assoc. reflexivity.
Qed.

End ToolInvocationResults.


Lemma onComplete_failure_replaces_result_witness :
  executeToolWithDefinition
    (mkToolDefinition
       (fun (args : nat) (w : nat) => (w + 1, @Returned string nat (args + 1)))
       None
       (Some (fun _ _ w => (w, Threw "render failed"))))
    1 (mkRun 0 []) =
  (mkRun 1 ([] ++ [] ++ [ImplementationCalled 1; ImplementationResolved 2;
                         OnCompleteCalled 1 2]),
   Threw "render failed").
Proof.
  apply (onComplete_failure_replaces_result
           (mkToolDefinition
              (fun (args : nat) (w : nat) =>
                 (w + 1, @Returned string nat (args + 1)))
              None
              (Some (fun _ _ w => (w, Threw "render failed"))))
           1 (mkRun 0 []) (fun _ _ w => (w, Threw "render failed"))
           0 1 1 2 "render failed"); reflexivity.
Defined.

(** * Properties of the tool builders *)

Section BuildToolsProperties.

Context {TArgs Err World : Type}.
Variable JSON_stringify : JSValue -> string.

Local Abbreviation DebugTool := (Tool TArgs Err World).
Local Abbreviation Renderer := (RenderToolCall TArgs Err World).

(** [buildDebugTools] returns as many tools as it builds, under the same
    names and with the same implementations, whether a renderer is attached
    or not; without a renderer the tools are returned as they are. *)
Theorem debug_tools_keep_names_and_implementations
        (tools : list DebugTool) (toolRenderer : option Renderer) :
  length (buildDebugTools JSON_stringify tools toolRenderer) = length tools /\
  map function_name (buildDebugTools JSON_stringify tools toolRenderer)
    = map function_name tools /\
  map (fun td => implementation (toolDef td))
      (buildDebugTools JSON_stringify tools toolRenderer)
    = map (fun td => implementation (toolDef td)) tools /\
  buildDebugTools JSON_stringify tools None = tools.
Proof.
  destruct toolRenderer as [render|]; simpl.
  - rewrite length_map, !map_map. repeat split.
  - repeat split.
Qed.

(** Attaching a renderer replaces the hooks a tool had: the tools built
    depend on the names and implementations only, so that attaching the
    same renderer a second time changes nothing. *)
Theorem renderer_replaces_earlier_hooks (render : Renderer) :
  (forall tools1 tools2 : list DebugTool,
      Forall2 (fun td1 td2 =>
                 function_name td1 = function_name td2 /\
                 implementation (toolDef td1) = implementation (toolDef td2))
              tools1 tools2 ->
      buildDebugTools JSON_stringify tools1 (Some render) =
      buildDebugTools JSON_stringify tools2 (Some render)) /\
  (forall tools : list DebugTool,
      buildDebugTools JSON_stringify
        (buildDebugTools JSON_stringify tools (Some render)) (Some render) =
      buildDebugTools JSON_stringify tools (Some render)).
Proof.
  split.
  - intros tools1 tools2 H. simpl.
    induction H as [|td1 td2 l1 l2 [Hname Himpl] _ IH]; simpl;
      [reflexivity|].
    rewrite IH. f_equal. unfold withRenderer. rewrite Hname, Himpl.
    reflexivity.
  - intros tools. simpl. rewrite map_map. reflexivity.
Qed.

(** Running a tool built with a renderer: the renderer is called with
    status [start] and the arguments before the implementation; when the
    implementation resolves it is called with status [success] and the
    result as text, a string result as it is and any other value through
    [JSON.stringify]; when the implementation rejects it is not called
    again, and the rejection reaches the caller. *)
Theorem rendered_tool_run (tools : list DebugTool) (render : Renderer)
        (tool : DebugTool) :
  In tool (buildDebugTools JSON_stringify tools (Some render)) ->
  exists td,
    In td tools /\ function_name tool = function_name td /\
    forall args (r : Run TArgs JSValue Err World) w1,
      render (mkRenderArgs (function_name td) "start" args None) (world r)
        = (w1, Returned tt) ->
      (forall w2 e,
          implementation (toolDef td) args w1 = (w2, Threw e) ->
          executeToolWithDefinition (toolDef tool) args r =
          (mkRun w2 (log r ++ [OnStartCalled args; ImplementationCalled args;
                               ImplementationRejected e]),
           Threw e)) /\
      (forall w2 result,
          implementation (toolDef td) args w1 = (w2, Returned result) ->
          exists text,
            text = match result with
                   | JSString s => s
                   | _ => JSON_stringify result
                   end /\
            fst (executeToolWithDefinition (toolDef tool) args r) =
            mkRun (fst (render (mkRenderArgs (function_name td) "success"
                                             args (Some text)) w2))
                  (log r ++ [OnStartCalled args; ImplementationCalled args;
                             ImplementationResolved result;
                             OnCompleteCalled args result])).
Proof.
  simpl. intros Hin. apply in_map_iff in Hin. destruct Hin as (td & <- & Hin).
  exists td. split; [exact Hin|]. split; [reflexivity|].
  intros args r w1 Hstart. split.
  - intros w2 e Himpl.
    unfold executeToolWithDefinition, andThen, await, call, record, pure,
      andThen. simpl.
    rewrite Hstart; simpl. rewrite Himpl; simpl.
    rewrite <- !app_assoc. reflexivity.
  - intros w2 result Himpl. eexists. split; [reflexivity|].
    unfold executeToolWithDefinition, andThen, await, call, record, pure,
      andThen. simpl.
    rewrite Hstart; simpl. rewrite Himpl; simpl.
    assert (Htext : (if String.eqb (typeof result) "string"
                     then match result with
                          | JSString s => s
                          | _ => JSON_stringify result
                          end
                     else JSON_stringify result) =
                    match result with
                    | JSString s => s
                    | _ => JSON_stringify result
                    end) by (destruct result; reflexivity).
    rewrite Htext.
    destruct (render _ w2) as [w3 [[]|e3]]; simpl;
      rewrite <- !app_assoc; reflexivity.
Qed.

End BuildToolsProperties.

(** A renderer that counts its calls, on a tool that fails. *)
Lemma rendered_tool_run_witness :
  exists td,
    In td [mkTool "get_logs"
             (mkToolDefinition
                (fun (_ : nat) (w : nat) => (w, @Threw string JSValue "down"))
                None None)] /\
    function_name
      (withRenderer (fun _ => "?") (fun _ (w : nat) => (S w, Returned tt))
         (mkTool "get_logs"
            (mkToolDefinition
               (fun (_ : nat) (w : nat) => (w, @Threw string JSValue "down"))
               None None))) = function_name td /\
    forall args (r : Run nat JSValue string nat) w1,
      (fun (_ : RenderArgs nat) (w : nat) => (S w, @Returned string unit tt))
        (mkRenderArgs (function_name td) "start" args None) (world r)
        = (w1, Returned tt) ->
      (forall w2 e,
          implementation (toolDef td) args w1 = (w2, Threw e) ->
          executeToolWithDefinition
            (toolDef
               (withRenderer (fun _ => "?")
                  (fun _ (w : nat) => (S w, Returned tt))
                  (mkTool "get_logs"
                     (mkToolDefinition
                        (fun (_ : nat) (w : nat) =>
                           (w, @Threw string JSValue "down"))
                        None None)))) args r =
          (mkRun w2 (log r ++ [OnStartCalled args; ImplementationCalled args;
                               ImplementationRejected e]),
           Threw e)) /\
      (forall w2 result,
          implementation (toolDef td) args w1 = (w2, Returned result) ->
          exists text,
            text = match result with
                   | JSString s => s
                   | _ => (fun _ => "?") result
                   end /\
            fst (executeToolWithDefinition
                   (toolDef
                      (withRenderer (fun _ => "?")
                         (fun _ (w : nat) => (S w, Returned tt))
                         (mkTool "get_logs"
                            (mkToolDefinition
                               (fun (_ : nat) (w : nat) =>
                                  (w, @Threw string JSValue "down"))
                               None None)))) args r) =
            mkRun (fst ((fun (_ : RenderArgs nat) (w : nat) =>
                           (S w, @Returned string unit tt))
                          (mkRenderArgs (function_name td) "success"
                                        args (Some text)) w2))
                  (log r ++ [OnStartCalled args; ImplementationCalled args;
                             ImplementationResolved result;
                             OnCompleteCalled args result])).
Proof.
  apply (rendered_tool_run (fun _ => "?")
           [mkTool "get_logs"
              (mkToolDefinition
                 (fun (_ : nat) (w : nat) => (w, @Threw string JSValue "down"))
                 None None)]
           (fun _ (w : nat) => (S w, Returned tt))).
  simpl. left. reflexivity.
Defined.

(** [buildTools] never rejects and returns the tools of its [return]
    statement whatever the MCP manager does: when [initialize] rejects, the
    error is logged as a warning on both loggers with its text, the tool
    names are not asked for, and the tools are returned all the same. *)
Theorem tools_built_whatever_mcp_does {TArgs Err World : Type}
        (errorText : Err -> string)
        (initialize : Callback Err World unit)
        (getAvailableToolNames : Callback Err World (list string))
        (tools : list (Tool TArgs Err World)) (s : Session World) :
  snd (buildTools errorText initialize getAvailableToolNames tools s)
    = Returned tools /\
  (forall w e,
      initialize (session_world s) = (w, Threw e) ->
      fst (buildTools errorText initialize getAvailableToolNames tools s) =
      mkSession w
        (session_log s ++
         [mkLogEntry "buildTools" "info"
                     "========================================" None;
          mkLogEntry "buildTools" "info"
                     "Building tools and initializing MCP manager..." None;
          mkLogEntry "buildTools" "info"
                     "========================================" None;
          mkLogEntry "logger" "info"
                     "Building tools and initializing MCP manager..." None;
          mkLogEntry "buildTools" "warn"
                     "MCP manager initialization failed (non-critical)"
                     (Some (errorText e));
          mkLogEntry "logger" "warn"
                     "MCP manager initialization failed (non-critical)"
                     (Some (errorText e))])).
Proof.
  unfold buildTools, initializeMcp, logBoth, logTo. simpl. split.
  - destruct (initialize (session_world s)) as [w [[]|e]]; simpl;
      [|reflexivity].
    destruct (getAvailableToolNames w) as [w' [names|e]]; simpl; reflexivity.
  - intros w e H. rewrite H. simpl. rewrite <- !app_assoc. reflexivity.
Qed.

Lemma tools_built_whatever_mcp_does_witness :
  fst (buildTools (TArgs := nat) (fun e : string => e)
         (fun w : nat => (S w, Threw "no server"))
         (fun w => (w, Returned ["search"]))
         [] (mkSession 0 [])) =
  mkSession 1
    ([] ++
     [mkLogEntry "buildTools" "info"
                 "========================================" None;
      mkLogEntry "buildTools" "info"
                 "Building tools and initializing MCP manager..." None;
      mkLogEntry "buildTools" "info"
                 "========================================" None;
      mkLogEntry "logger" "info"
                 "Building tools and initializing MCP manager..." None;
      mkLogEntry "buildTools" "warn"
                 "MCP manager initialization failed (non-critical)"
                 (Some "no server");
      mkLogEntry "logger" "warn"
                 "MCP manager initialization failed (non-critical)"
                 (Some "no server")]).
Proof.
  apply (proj2 (tools_built_whatever_mcp_does (TArgs := nat)
                  (fun e : string => e)
                  (fun w : nat => (S w, Threw "no server"))
                  (fun w => (w, Returned ["search"]))
                  [] (mkSession 0 []))).
  reflexivity.
Defined.

(** * The domain service *)

(** ** The matcher and the strings of an expression *)

Lemma Matches_seq_inv r1 r2 s :
  Matches (Seq r1 r2) s ->
  exists s1 s2, s = s1 ++ s2 /\ Matches r1 s1 /\ Matches r2 s2.
Proof. intros H. inversion H; subst; eauto. Qed.

Lemma Matches_alt_inv r1 r2 s :
  Matches (Alt r1 r2) s -> Matches r1 s \/ Matches r2 s.
Proof. intros H. inversion H; subst; auto. Qed.

Lemma Matches_class_inv member s :
  Matches (Class member) s -> exists c, s = [c] /\ member c = true.
Proof. intros H. inversion H; subst; eauto. Qed.

Lemma Matches_epsilon_inv s : Matches Epsilon s -> s = [].
Proof. intros H. inversion H; reflexivity. Qed.

Lemma matchesEmpty_spec r : matchesEmpty r = true <-> Matches r [].
Proof.
  induction r as [| |member|r1 IH1 r2 IH2|r1 IH1 r2 IH2|r IH]; simpl.
  - split; [discriminate | intros H; inversion H].
  - split; [constructor | reflexivity].
  - split; [discriminate | intros H; inversion H].
  - rewrite andb_true_iff, IH1, IH2. split.
    + intros [H1 H2]. exact (matches_seq _ _ [] [] H1 H2).
    + intros H. apply Matches_seq_inv in H.
      destruct H as (s1 & s2 & Heq & H1 & H2).
      symmetry in Heq. apply app_eq_nil in Heq. destruct Heq; subst. auto.
  - rewrite orb_true_iff, IH1, IH2. split.
    + intros [H|H]; [apply matches_alt_left | apply matches_alt_right]; exact H.
    + apply Matches_alt_inv.
  - split; [constructor | reflexivity].
Qed.

Lemma Matches_star_cons r c s :
  Matches (Star r) (c :: s) ->
  exists s1 s2, s = s1 ++ s2 /\ Matches r (c :: s1) /\ Matches (Star r) s2.
Proof.
  intros H. remember (Star r) as r' eqn:Er. remember (c :: s) as s' eqn:Es.
  revert s Es.
  induction H as [| | | | | |r0 s1 s2 H1 _ H2 IH2]; intros t Et;
    try discriminate.
  injection Er as ->. destruct s1 as [|c1 s1]; simpl in Et.
  - apply IH2; auto.
  - injection Et as -> <-. eauto.
Qed.

Lemma after_spec c r : forall s, Matches (after c r) s <-> Matches r (c :: s).
Proof.
  induction r as [| |member|r1 IH1 r2 IH2|r1 IH1 r2 IH2|r IH]; simpl;
    intros s.
  - split; intros H; inversion H.
  - split; intros H; inversion H.
  - destruct (member c) eqn:E; split; intros H.
    + apply Matches_epsilon_inv in H. subst s. constructor. exact E.
    + apply Matches_class_inv in H. destruct H as (c' & Heq & _).
      injection Heq as <- ->. constructor.
    + inversion H.
    + apply Matches_class_inv in H. destruct H as (c' & Heq & Hc).
      injection Heq as <- ->. congruence.
  - assert (Hseq : Matches (Seq (after c r1) r2) s <->
                   exists s1 s2, s = s1 ++ s2 /\ Matches r1 (c :: s1) /\
                                 Matches r2 s2).
    { split.
      - intros H. apply Matches_seq_inv in H.
        destruct H as (s1 & s2 & -> & H1 & H2).
        exists s1, s2. rewrite <- IH1. auto.
      - intros (s1 & s2 & -> & H1 & H2). constructor; [|exact H2].
        apply IH1. exact H1. }
    assert (Hsplit : Matches (Seq r1 r2) (c :: s) <->
                     (exists s1 s2, s = s1 ++ s2 /\ Matches r1 (c :: s1) /\
                                    Matches r2 s2) \/
                     (Matches r1 [] /\ Matches r2 (c :: s))).
    { split.
      - intros H. apply Matches_seq_inv in H.
        destruct H as (s1 & s2 & Heq & H1 & H2).
        destruct s1 as [|c1 s1]; simpl in Heq.
        + right. subst s2. auto.
        + injection Heq as <- ->. left. eauto.
      - intros [(s1 & s2 & -> & H1 & H2)|[H1 H2]].
        + exact (matches_seq _ _ (c :: s1) s2 H1 H2).
        + exact (matches_seq _ _ [] (c :: s) H1 H2). }
    rewrite Hsplit. destruct (matchesEmpty r1) eqn:E.
    + apply matchesEmpty_spec in E. split.
      * intros H. apply Matches_alt_inv in H. destruct H as [H|H].
        -- left. apply Hseq. exact H.
        -- right. split; [exact E|]. apply IH2. exact H.
      * intros [H|[_ H]].
        -- apply matches_alt_left. apply Hseq. exact H.
        -- apply matches_alt_right. apply IH2. exact H.
    + rewrite Hseq. split; [auto|]. intros [H|[H _]]; [exact H|].
      apply matchesEmpty_spec in H. congruence.
  - split; intros H.
    + apply Matches_alt_inv in H. destruct H as [H|H].
      * apply matches_alt_left. apply IH1. exact H.
      * apply matches_alt_right. apply IH2. exact H.
    + apply Matches_alt_inv in H. destruct H as [H|H].
      * apply matches_alt_left. apply IH1. exact H.
      * apply matches_alt_right. apply IH2. exact H.
  - split.
    + intros H. apply Matches_seq_inv in H.
      destruct H as (s1 & s2 & -> & H1 & H2).
      apply IH in H1. exact (matches_star_more r (c :: s1) s2 H1 H2).
    + intros H. apply Matches_star_cons in H.
      destruct H as (s1 & s2 & -> & H1 & H2).
      constructor; [apply IH; exact H1 | exact H2].
Qed.

(** The matcher accepts exactly the strings of the expression. *)
Lemma regexTest_spec r s : regexTest r s = true <-> Matches r s.
Proof.
  unfold regexTest. revert r.
  induction s as [|c s IH]; intros r; simpl.
  - apply matchesEmpty_spec.
  - rewrite IH. apply after_spec.
Qed.

(** ** The strings of the domain expression *)

Lemma Matches_star_parts r s :
  Matches (Star r) s <->
  exists parts, s = concat parts /\ Forall (Matches r) parts.
Proof.
  split.
  - intros H. remember (Star r) as r' eqn:Er.
    induction H as [| | | | | |r0 s1 s2 H1 _ H2 IH2]; try discriminate.
    + exists []. split; constructor.
    + injection Er as ->. destruct (IH2 eq_refl) as (parts & -> & Hparts).
      exists (s1 :: parts). split; [reflexivity | constructor; assumption].
  - intros (parts & -> & Hparts).
    induction Hparts as [|p parts Hp _ IH]; simpl; constructor; assumption.
Qed.

Lemma Matches_star_class member s :
  Matches (Star (Class member)) s <-> Forall (fun c => member c = true) s.
Proof.
  rewrite Matches_star_parts. split.
  - intros (parts & -> & Hparts).
    induction Hparts as [|p parts Hp _ IH]; simpl; [constructor|].
    apply Matches_class_inv in Hp. destruct Hp as (c & -> & Hc).
    constructor; assumption.
  - intros H. exists (map (fun c => [c]) s). split.
    + induction s as [|c s IH]; simpl; [reflexivity|].
      inversion H; subst. f_equal. auto.
    + induction H as [|c s Hc _ IH]; simpl; constructor; [|exact IH].
      constructor. exact Hc.
Qed.

Lemma Matches_class_seq member r s :
  Matches (Seq (Class member) r) s <->
  exists c rest, s = c :: rest /\ member c = true /\ Matches r rest.
Proof.
  split.
  - intros H. apply Matches_seq_inv in H.
    destruct H as (s1 & s2 & -> & H1 & H2).
    apply Matches_class_inv in H1. destruct H1 as (c & -> & Hc).
    exists c, s2. auto.
  - intros (c & rest & -> & Hc & Hr).
    exact (matches_seq _ _ [c] rest (matches_class _ _ Hc) Hr).
Qed.

Lemma Matches_upTo member n : forall s,
  Matches (UpTo n (Class member)) s <->
  length s <= n /\ Forall (fun c => member c = true) s.
Proof.
  induction n as [|n IH]; intros s; simpl.
  - split.
    + intros H. apply Matches_epsilon_inv in H. subst.
      split; [simpl; lia | constructor].
    + intros [Hlen _]. destruct s; [constructor | simpl in Hlen; lia].
  - split.
    + intros H. apply Matches_alt_inv in H. destruct H as [H|H].
      * apply Matches_epsilon_inv in H. subst. split; [simpl; lia | constructor].
      * apply Matches_class_seq in H. destruct H as (c & rest & -> & Hc & Hr).
        apply IH in Hr. destruct Hr as [Hlen Hall].
        split; [simpl; lia | constructor; assumption].
    + intros [Hlen Hall]. destruct s as [|c s].
      * apply matches_alt_left. constructor.
      * apply matches_alt_right. apply Matches_class_seq.
        inversion Hall; subst. exists c, s. repeat split; auto.
        apply IH. split; [simpl in Hlen; lia | assumption].
Qed.

Lemma Matches_atLeastTwo member s :
  Matches (AtLeastTwo (Class member)) s <->
  2 <= length s /\ Forall (fun c => member c = true) s.
Proof.
  unfold AtLeastTwo. rewrite Matches_class_seq. split.
  - intros (c & rest & -> & Hc & Hr). apply Matches_class_seq in Hr.
    destruct Hr as (c' & rest' & -> & Hc' & Hr).
    apply Matches_star_class in Hr.
    split; [simpl; lia | repeat constructor; assumption].
  - intros [Hlen Hall]. destruct s as [|c [|c' s]]; simpl in Hlen; try lia.
    inversion Hall as [|? ? Hc Hall']; subst.
    inversion Hall' as [|? ? Hc' Hall'']; subst.
    exists c, (c' :: s). repeat split; auto.
    apply Matches_class_seq. exists c', s. repeat split; auto.
    apply Matches_star_class. exact Hall''.
Qed.

Lemma Matches_letterLabel part :
  Matches (Seq (Class (Nat.eqb dot)) (AtLeastTwo (Class isLower))) part <->
  exists label, part = dot :: label /\ isLetterLabel label.
Proof.
  rewrite Matches_class_seq. split.
  - intros (c & rest & -> & Hc & Hr). apply Nat.eqb_eq in Hc. subst c.
    exists rest. split; [reflexivity|]. apply Matches_atLeastTwo. exact Hr.
  - intros (label & -> & Hl). exists dot, label.
    split; [reflexivity|]. split; [apply Nat.eqb_refl|].
    apply Matches_atLeastTwo. exact Hl.
Qed.

Lemma Matches_letterLabels s :
  Matches (Plus (Seq (Class (Nat.eqb dot)) (AtLeastTwo (Class isLower)))) s <->
  exists labels, labels <> [] /\ s = dotted labels /\
                 Forall isLetterLabel labels.
Proof.
  unfold Plus. split.
  - intros H. apply Matches_seq_inv in H.
    destruct H as (s1 & s2 & -> & H1 & H2).
    apply Matches_letterLabel in H1. destruct H1 as (label & -> & Hlabel).
    apply Matches_star_parts in H2. destruct H2 as (parts & -> & Hparts).
    assert (Hrest : exists labels, concat parts = dotted labels /\
                                   Forall isLetterLabel labels).
    { induction Hparts as [|p parts Hp _ IH]; simpl.
      - exists []. split; [reflexivity | constructor].
      - apply Matches_letterLabel in Hp. destruct Hp as (l & -> & Hl).
        destruct IH as (labels & -> & Hlabels).
        exists (l :: labels). split; [reflexivity | constructor; assumption]. }
    destruct Hrest as (labels & -> & Hlabels).
    exists (label :: labels). split; [discriminate|].
    split; [reflexivity | constructor; assumption].
  - intros (labels & Hne & -> & Hlabels).
    destruct labels as [|label labels]; [contradiction|].
    inversion Hlabels as [|? ? Hl Hrest]; subst.
    unfold dotted; simpl.
    apply (matches_seq _ _ (dot :: label) (concat (map (cons dot) labels))).
    + apply Matches_letterLabel. eauto.
    + apply Matches_star_parts. exists (map (cons dot) labels).
      split; [reflexivity|].
      clear Hlabels Hne Hl. induction Hrest as [|l ls Hl _ IH]; simpl;
        constructor; [|exact IH].
      apply Matches_letterLabel. eauto.
Qed.

Lemma Matches_firstLabel s rest :
  (exists c tail, s = c :: tail ++ rest /\ isLowerOrDigit c = true /\
     Matches (Optional_ (Seq (UpTo 61 (Class isLowerDigitOrHyphen))
                             (Class isLowerOrDigit))) tail) <->
  exists label, s = label ++ rest /\ isFirstLabel label.
Proof.
  unfold Optional_, isFirstLabel. split.
  - intros (c & tail & -> & Hc & H). apply Matches_alt_inv in H.
    destruct H as [H|H].
    + apply Matches_epsilon_inv in H. subst tail.
      exists [c]. split; [reflexivity|]. left. eauto.
    + apply Matches_seq_inv in H. destruct H as (m & l & -> & Hm & Hl).
      apply Matches_upTo in Hm. destruct Hm as [Hlen Hall].
      apply Matches_class_inv in Hl. destruct Hl as (b & -> & Hb).
      exists (c :: m ++ [b]). split; [reflexivity|].
      right. exists c, m, b. auto.
  - intros (label & -> & [(c & -> & Hc)|(a & m & b & -> & Ha & Hb & Hall & Hlen)]).
    + exists c, []. repeat split; auto. apply matches_alt_left. constructor.
    + exists a, (m ++ [b]). repeat split; auto.
      apply matches_alt_right. constructor.
      * apply Matches_upTo. auto.
      * constructor. exact Hb.
Qed.

Lemma isValidDomain_shape domain :
  isValidDomain domain = true <->
  exists first rest,
    domain = first ++ dotted rest /\
    isFirstLabel first /\ rest <> [] /\ Forall isLetterLabel rest.
Proof.
  unfold isValidDomain. rewrite regexTest_spec. unfold domainRegex.
  rewrite Matches_class_seq. split.
  - intros (c & s & -> & Hc & H). apply Matches_seq_inv in H.
    destruct H as (tail & labels & -> & Htail & Hlabels).
    apply Matches_letterLabels in Hlabels.
    destruct Hlabels as (rest & Hne & -> & Hrest).
    destruct (proj1 (Matches_firstLabel (c :: tail ++ dotted rest)
                       (dotted rest))) as (label & Heq & Hlabel).
    { exists c, tail. auto. }
    exists label, rest. auto.
  - intros (first & rest & -> & Hfirst & Hne & Hrest).
    destruct (proj2 (Matches_firstLabel (first ++ dotted rest) (dotted rest)))
      as (c & tail & Heq & Hc & Htail).
    { exists first. auto. }
    exists c, (tail ++ dotted rest). split; [exact Heq|]. split; [exact Hc|].
    constructor; [exact Htail|].
    apply Matches_letterLabels. exists rest. auto.
Qed.

(** ** Valid domains and suggestions *)

(** [isValidDomain] accepts exactly the strings made of a first label of
    1 to 63 characters of [[a-z0-9-]] that begins and ends with a letter or
    digit, followed by one or more dot-separated labels of at least two
    lower-case letters each: further labels with a digit or hyphen, or of
    one letter, make a domain invalid. *)
Theorem valid_domain_is_label_then_letter_labels domain :
  isValidDomain domain = true <->
  exists first rest,
    domain = first ++ dotted rest /\
    isFirstLabel first /\ rest <> [] /\ Forall isLetterLabel rest.
Proof. apply isValidDomain_shape. Qed.

Lemma isFirstLabel_no_dot label :
  isFirstLabel label ->
  Forall (fun c => isLowerDigitOrHyphen c = true) label /\
  1 <= length label <= 63.
Proof.
  unfold isLowerDigitOrHyphen.
  intros [(c & -> & Hc)|(a & m & b & -> & Ha & Hb & Hall & Hlen)].
  - split; [|simpl; lia]. constructor; [|constructor].
    rewrite Hc. reflexivity.
  - split.
    + constructor; [rewrite Ha; reflexivity|].
      apply Forall_app. split; [exact Hall|].
      constructor; [rewrite Hb; reflexivity | constructor].
    + simpl. rewrite length_app. simpl. lia.
Qed.

Lemma first_dot_unique (l1 l2 r1 r2 : list nat) :
  Forall (fun c => c <> dot) l1 -> Forall (fun c => c <> dot) l2 ->
  l1 ++ dot :: r1 = l2 ++ dot :: r2 -> l1 = l2.
Proof.
  revert l2. induction l1 as [|a l1 IH]; intros l2 H1 H2 Heq.
  - destruct l2 as [|b l2]; [reflexivity|].
    simpl in Heq. injection Heq as <- _. inversion H2; subst. contradiction.
  - destruct l2 as [|b l2]; simpl in Heq.
    + injection Heq as -> _. inversion H1; subst. contradiction.
    + injection Heq as -> Heq. f_equal.
      inversion H1; inversion H2; subst. eauto.
Qed.

Lemma isLowerDigitOrHyphen_not_dot c :
  isLowerDigitOrHyphen c = true -> c <> dot.
Proof.
  unfold isLowerDigitOrHyphen, isLowerOrDigit, isLower, isDigit, dot.
  intros H ->. vm_compute in H. discriminate.
Qed.

Lemma isLowerOrDigit_label (base : list nat) :
  Forall (fun c => isLowerOrDigit c = true) base ->
  1 <= length base <= 63 ->
  isFirstLabel base.
Proof.
  intros Hall Hlen. destruct base as [|a rest]; [simpl in Hlen; lia|].
  inversion Hall as [|? ? Ha Hrest]; subst.
  destruct rest as [|c0 rest0]; [left; eauto|].
  destruct (@exists_last _ (c0 :: rest0)) as (middle & b & Heq);
    [discriminate|].
  rewrite Heq in *. right.
  apply Forall_app in Hrest. destruct Hrest as [Hmid Hlast].
  inversion Hlast as [|? ? Hb _]; subst.
  exists a, middle, b. repeat split; auto.
  - eapply Forall_impl; [|exact Hmid].
    intros x Hx. unfold isLowerDigitOrHyphen. rewrite Hx. reflexivity.
  - simpl in Hlen. rewrite length_app in Hlen. simpl in Hlen. lia.
Qed.

Lemma tlds_are_letter_labels tld :
  In tld tlds -> exists label, tld = dot :: label /\ isLetterLabel label.
Proof.
  intros H. unfold tlds in H. simpl in H.
  repeat (destruct H as [<-|H];
          [eexists; split; [reflexivity|];
           split; [simpl; lia | repeat constructor]|]).
  contradiction.
Qed.

(** [generateSuggestions] always proposes seven names, the letters and
    digits of the lower-cased query followed by each ending in turn; they
    are valid domains exactly when the query has between 1 and 63 letters
    and digits. *)
Theorem suggestions_valid_iff_base_fits (toLowerCase : list nat -> list nat)
        (query : list nat) :
  let baseName := filter isLowerOrDigit (toLowerCase query) in
  generateSuggestions toLowerCase query = map (fun tld => baseName ++ tld) tlds /\
  length (generateSuggestions toLowerCase query) = 7 /\
  forall suggestion,
    In suggestion (generateSuggestions toLowerCase query) ->
    (isValidDomain suggestion = true <-> 1 <= length baseName <= 63).
Proof.
  intros baseName. split; [reflexivity|]. split; [reflexivity|].
  intros suggestion Hin. unfold generateSuggestions in Hin.
  fold baseName in Hin. apply in_map_iff in Hin.
  destruct Hin as (tld & <- & Htld).
  destruct (tlds_are_letter_labels tld Htld) as (label & -> & Hlabel).
  assert (Hbase : Forall (fun c => isLowerOrDigit c = true) baseName).
  { apply Forall_forall. intros c Hc. unfold baseName in Hc.
    apply filter_In in Hc. tauto. }
  rewrite isValidDomain_shape. split.
  - intros (first & rest & Heq & Hfirst & Hne & Hrest).
    destruct rest as [|l rest]; [contradiction|].
    unfold dotted in Heq. simpl in Heq.
    destruct (isFirstLabel_no_dot first Hfirst) as [Hchars Hlen].
    assert (Hsame : baseName = first).
    { eapply first_dot_unique; [| |exact Heq].
      - eapply Forall_impl; [|exact Hbase]. intros c Hc.
        apply isLowerDigitOrHyphen_not_dot. unfold isLowerDigitOrHyphen.
        rewrite Hc. reflexivity.
      - eapply Forall_impl; [|exact Hchars].
        intros c. apply isLowerDigitOrHyphen_not_dot. }
    rewrite Hsame. exact Hlen.
  - intros Hlen. exists baseName, [label].
    unfold dotted. simpl. rewrite app_nil_r.
    repeat split; auto; try discriminate.
    apply isLowerOrDigit_label; assumption.
Qed.

Lemma suggestions_valid_iff_base_fits_witness :
  isValidDomain (units "myshop.store") = true <->
  1 <= length (filter isLowerOrDigit (units "my shop!")) <= 63.
Proof.
  apply (proj2 (proj2 (suggestions_valid_iff_base_fits
                         (fun s => s) (units "my shop!")))).
  simpl. tauto.
Defined.

(** ** Normalising and checking a domain *)

Lemma stripPrefix_app prefix s : stripPrefix prefix (prefix ++ s) = Some s.
Proof.
  induction prefix as [|p prefix IH]; simpl; [reflexivity|].
  rewrite Nat.eqb_refl. exact IH.
Qed.

Lemma beforeSlash_host host path :
  Forall (fun c => c <> slash) host ->
  beforeSlash (host ++ slash :: path) = host /\ beforeSlash host = host.
Proof.
  induction 1 as [|c host Hc _ [IH1 IH2]]; simpl.
  - split; reflexivity.
  - apply Nat.eqb_neq in Hc. rewrite Hc, IH1, IH2. split; reflexivity.
Qed.

Lemma beforeSlash_no_slash s : Forall (fun c => c <> slash) (beforeSlash s).
Proof.
  induction s as [|c s IH]; simpl; [constructor|].
  destruct (c =? slash)%nat eqn:E; constructor; [|exact IH].
  apply Nat.eqb_neq. exact E.
Qed.

Lemma stripPrefix_Some prefix : forall s t,
  stripPrefix prefix s = Some t -> s = prefix ++ t.
Proof.
  induction prefix as [|p prefix IH]; simpl; intros s t H.
  - injection H as ->. reflexivity.
  - destruct s as [|c s]; [discriminate|].
    destruct (p =? c)%nat eqn:E; [|discriminate].
    apply Nat.eqb_eq in E. subst c. f_equal. exact (IH _ _ H).
Qed.

Lemma stripPrefix_None prefix s :
  stripPrefix prefix s = None -> forall t, s <> prefix ++ t.
Proof.
  intros H t ->. rewrite stripPrefix_app in H. discriminate.
Qed.

Lemma stripPrefix_absent prefix s :
  (forall t, s <> prefix ++ t) -> stripPrefix prefix s = None.
Proof.
  intros H. destruct (stripPrefix prefix s) as [t|] eqn:E; [|reflexivity].
  apply stripPrefix_Some in E. destruct (H t E).
Qed.

Lemma beforeSlash_split s :
  exists rest, s = beforeSlash s ++ rest /\
               (rest = [] \/ exists path, rest = slash :: path).
Proof.
  induction s as [|c s (rest & Heq & Hrest)]; simpl.
  - exists []. auto.
  - destruct (c =? slash)%nat eqn:E.
    + apply Nat.eqb_eq in E. subst c. exists (slash :: s). eauto.
    + exists rest. simpl. split; [f_equal; exact Heq | exact Hrest].
Qed.

(** [normalizeDomain] reduces an address to its host name.  Every string,
    once lower-cased and trimmed, reads as an optional protocol
    [http://] or [https://], an optional [www.], a host name without slash
    and a rest from the first slash on; the result is that host name,
    whichever parts are present.  So the result never holds a slash, only
    one protocol and one [www.] are removed, and an address without either
    loses its path all the same. *)
Theorem normalizeDomain_keeps_the_host
        (toLowerCase trim : list nat -> list nat) :
  (forall input,
      Forall (fun c => c <> slash) (normalizeDomain toLowerCase trim input)) /\
  (forall input protocol www host rest,
      hostDecomposition (trim (toLowerCase input)) protocol www host rest ->
      normalizeDomain toLowerCase trim input = host) /\
  (forall input,
      exists protocol www host rest,
        hostDecomposition (trim (toLowerCase input)) protocol www host rest).
Proof.
  split; [intros input; apply beforeSlash_no_slash|]. split.
  - intros input protocol www host rest
      (Hinput & Hprotocol & Hwww & Hhost & Hrest).
    unfold normalizeDomain. rewrite Hinput.
    assert (Hstripped :
              match stripPrefix (units "https://")
                      (protocol ++ www ++ host ++ rest) with
              | Some s => s
              | None => removePrefix (units "http://")
                          (protocol ++ www ++ host ++ rest)
              end = www ++ host ++ rest).
    { destruct Hprotocol as [-> | [-> | [-> Habsent]]].
      - rewrite stripPrefix_app. reflexivity.
      - unfold removePrefix.
        replace (stripPrefix (units "https://")
                   (units "http://" ++ www ++ host ++ rest))
          with (@None (list nat)) by reflexivity.
        rewrite stripPrefix_app. reflexivity.
      - simpl app. unfold removePrefix.
        rewrite (stripPrefix_absent (units "https://"))
          by (intros t; apply Habsent).
        rewrite (stripPrefix_absent (units "http://"))
          by (intros t; apply Habsent).
        reflexivity. }
    rewrite Hstripped. unfold removePrefix.
    assert (Hwww' : match stripPrefix (units "www.") (www ++ host ++ rest) with
                    | Some s => s
                    | None => www ++ host ++ rest
                    end = host ++ rest).
    { destruct Hwww as [-> | [-> Habsent]].
      - rewrite stripPrefix_app. reflexivity.
      - simpl app. rewrite (stripPrefix_absent (units "www.")) by exact Habsent.
        reflexivity. }
    rewrite Hwww'.
    destruct Hrest as [-> | [path ->]].
    + rewrite app_nil_r. apply (beforeSlash_host host [] Hhost).
    + apply (beforeSlash_host host path Hhost).
  - intros input. set (s := trim (toLowerCase input)).
    assert (Hprotocol : exists protocol t,
               s = protocol ++ t /\
               (protocol = units "https://" \/ protocol = units "http://" \/
                (protocol = [] /\
                 forall u, t <> units "https://" ++ u /\
                           t <> units "http://" ++ u))).
    { destruct (stripPrefix (units "https://") s) as [t|] eqn:E1.
      - apply stripPrefix_Some in E1. exists (units "https://"), t. auto.
      - destruct (stripPrefix (units "http://") s) as [t|] eqn:E2.
        + apply stripPrefix_Some in E2. exists (units "http://"), t. auto.
        + exists [], s. split; [reflexivity|]. right. right.
          split; [reflexivity|]. intros u. split.
          * apply stripPrefix_None. exact E1.
          * apply stripPrefix_None. exact E2. }
    destruct Hprotocol as (protocol & t & Hs & Hprotocol).
    assert (Hwww : exists www t',
               t = www ++ t' /\
               (www = units "www." \/
                (www = [] /\ forall u, t' <> units "www." ++ u))).
    { destruct (stripPrefix (units "www.") t) as [t'|] eqn:E.
      - apply stripPrefix_Some in E. exists (units "www."), t'. auto.
      - exists [], t. split; [reflexivity|]. right.
        split; [reflexivity|]. apply stripPrefix_None. exact E. }
    destruct Hwww as (www & t' & Ht & Hwww).
    destruct (beforeSlash_split t') as (rest & Ht' & Hrest).
    exists protocol, www, (beforeSlash t'), rest.
    unfold hostDecomposition. rewrite <- Ht', <- Ht.
    split; [exact Hs|]. split; [exact Hprotocol|]. split; [exact Hwww|].
    split; [apply beforeSlash_no_slash | exact Hrest].
Qed.

Lemma normalizeDomain_keeps_the_host_witness :
  normalizeDomain (fun s => s) (fun s => s) (units "example.com/x")
    = units "example.com".
Proof.
  apply (proj1 (proj2 (normalizeDomain_keeps_the_host
                         (fun s => s) (fun s => s)))
           (units "example.com/x") [] [] (units "example.com") (units "/x")).
  split; [reflexivity|]. split; [|split; [|split]].
  - right. right. split; [reflexivity|].
    intros t. split; intros H; discriminate H.
  - right. split; [reflexivity|]. intros t H. discriminate H.
  - repeat constructor; discriminate.
  - right. eexists. reflexivity.
Defined.

Section DomainLookupProperties.

Context {Err World : Type}.
Variables toLowerCase trim : list nat -> list nat.
Variable fetch : list nat -> Callback Err World (@Response Err World).
Variable logger : @LoggerCall Err -> Callback Err World unit.

Local Abbreviation check :=
  (checkAvailability toLowerCase trim fetch logger).

(** A domain that is not valid once normalised is answered at once: not
    available, with the error [Invalid domain format], without any DNS
    query or log entry (the world is untouched). *)
Theorem invalid_domain_is_not_looked_up (domain : list nat) (w : World) :
  isValidDomain (normalizeDomain toLowerCase trim domain) = false ->
  check domain w =
  (w, Returned (mkAvailability (normalizeDomain toLowerCase trim domain)
                               false None (Some "Invalid domain format"))).
Proof.
  intros H. unfold checkAvailability, tryCatch, yield.
  rewrite H. reflexivity.
Qed.

Lemma checkDNS_true domain w w' :
  checkDNS fetch logger domain w = (w', Returned true) ->
  exists w1 response data,
    fetch (dnsQueryUrl domain) w = (w1, Returned response) /\
    response_ok response = true /\
    response_json response w1 = (w', Returned data) /\
    (Status data = 3%Z \/ Answer data = None \/ Answer data = Some []).
Proof.
  unfold checkDNS, tryCatch, thenDo, yield.
  destruct (fetch (dnsQueryUrl domain) w) as [w1 [response|e]].
  - destruct (response_ok response) eqn:Hok; simpl.
    + destruct (response_json response w1) as [w2 [data|e]] eqn:Hjson.
      * destruct (Status data =? 3)%Z eqn:Hstatus.
        -- intros H. injection H as <-. apply Z.eqb_eq in Hstatus.
           exists w1, response, data. repeat split; auto.
        -- destruct (Answer data) as [[|a answers]|] eqn:Hanswer; simpl;
             intros H; try discriminate; injection H as <-;
             exists w1, response, data; repeat split; auto.
      * destruct (logger _ w2) as [w3 [[]|e']]; intros H; discriminate.
    + intros H. discriminate.
  - destruct (logger _ w1) as [w3 [[]|e']]; intros H; discriminate.
Qed.

(** A domain is reported available only on evidence from the DNS: the
    domain was valid, the query for it was answered with an [ok] response
    whose body could be read, and the body had status 3 (NXDOMAIN) or no
    answer records.  No failure of the query is ever reported as
    available. *)
Theorem available_only_on_dns_evidence (domain : list nat) (w w' : World)
        (result : DomainAvailabilityResult) :
  check domain w = (w', Returned result) ->
  result_available result = true ->
  let normalized := normalizeDomain toLowerCase trim domain in
  result_domain result = normalized /\
  result_error result = None /\
  isValidDomain normalized = true /\
  exists w1 w2 response data,
    fetch (dnsQueryUrl normalized) w = (w1, Returned response) /\
    response_ok response = true /\
    response_json response w1 = (w2, Returned data) /\
    (Status data = 3%Z \/ Answer data = None \/ Answer data = Some []).
Proof.
  intros Hcheck Havailable normalized.
  unfold checkAvailability, tryCatch, thenDo, yield in Hcheck.
  fold normalized in Hcheck.
  destruct (isValidDomain normalized) eqn:Hvalid; simpl in Hcheck.
  - destruct (checkDNS fetch logger normalized w) as [w1 [b|e]] eqn:Hdns.
    + destruct (logger (mkLoggerCall "info" _ normalized (Some b) None) w1)
        as [w2 [[]|e]].
      * injection Hcheck as <- <-. simpl in Havailable. subst b.
        destruct (checkDNS_true _ _ _ Hdns)
          as (w0 & response & data & H1 & H2 & H3 & H4).
        repeat split; auto. exists w0, w1, response, data. auto.
      * destruct (logger _ w2) as [w3 [[]|e']]; [|discriminate].
        injection Hcheck as <- <-. discriminate Havailable.
    + destruct (logger _ w1) as [w3 [[]|e']]; [|discriminate].
      injection Hcheck as <- <-. discriminate Havailable.
  - injection Hcheck as <- <-. discriminate Havailable.
Qed.

(** [checkAvailability] rejects only if the logger throws: with a logger
    that returns, every failure of the query or of reading its body ends in
    a result that says not available. *)
Theorem checkAvailability_returns_when_logger_does (domain : list nat)
        (w : World) :
  (forall entry w0, snd (logger entry w0) = Returned tt) ->
  exists w' result,
    check domain w = (w', Returned result) /\
    (forall w1 e, fetch (dnsQueryUrl (normalizeDomain toLowerCase trim domain))
                        w = (w1, Threw e) ->
                  result_available result = false).
Proof.
  intros Hlogger.
  assert (Hlog : forall entry w0, exists w1, logger entry w0 = (w1, Returned tt)).
  { intros entry w0. specialize (Hlogger entry w0).
    destruct (logger entry w0) as [w1 c]. simpl in Hlogger. subst c. eauto. }
  unfold checkAvailability, checkDNS, tryCatch, thenDo, yield.
  set (normalized := normalizeDomain toLowerCase trim domain).
  destruct (isValidDomain normalized); simpl.
  - destruct (fetch (dnsQueryUrl normalized) w) as [w1 [response|e]].
    + destruct (response_ok response); simpl.
      * destruct (response_json response w1) as [w2 [data|e]].
        -- destruct (Status data =? 3)%Z;
             [|destruct (match Answer data with
                         | Some answers => (0 <? length answers)%nat
                         | None => false
                         end)];
             match goal with
             | |- context [logger ?entry ?w0] =>
                 destruct (Hlog entry w0) as [w3 ->]
             end; do 2 eexists; (split; [reflexivity|]);
             intros ? ? Hf; discriminate Hf.
        -- match goal with
           | |- context [logger ?entry ?w0] =>
               destruct (Hlog entry w0) as [w3 ->]
           end.
           match goal with
           | |- context [logger ?entry ?w0] =>
               destruct (Hlog entry w0) as [w4 ->]
           end.
           do 2 eexists; (split; [reflexivity|]);
             intros ? ? Hf; discriminate Hf.
      * match goal with
        | |- context [logger ?entry ?w0] =>
            destruct (Hlog entry w0) as [w3 ->]
        end.
        do 2 eexists; (split; [reflexivity|]);
          intros ? ? Hf; discriminate Hf.
    + match goal with
      | |- context [logger ?entry ?w0] =>
          destruct (Hlog entry w0) as [w3 ->]
      end.
      match goal with
      | |- context [logger ?entry ?w0] =>
          destruct (Hlog entry w0) as [w4 ->]
      end.
      do 2 eexists; (split; [reflexivity|]). intros; reflexivity.
  - do 2 eexists; (split; [reflexivity|]). intros; reflexivity.
Qed.

End DomainLookupProperties.

Lemma invalid_domain_is_not_looked_up_witness :
  checkAvailability (fun s => s) (fun s => s) answersNxdomain quietLogger
    (units "my shop") 0 =
  (0, Returned (mkAvailability
                  (normalizeDomain (fun s => s) (fun s => s) (units "my shop"))
                  false None (Some "Invalid domain format"))).
Proof.
  apply (invalid_domain_is_not_looked_up (fun s => s) (fun s => s)
           answersNxdomain quietLogger (units "my shop") 0).
  reflexivity.
Defined.

Lemma available_only_on_dns_evidence_witness :
  let normalized :=
    normalizeDomain (fun s => s) (fun s => s) (units "www.example.com") in
  result_domain (mkAvailability (units "example.com") true None None)
    = normalized /\
  result_error (mkAvailability (units "example.com") true None None) = None /\
  isValidDomain normalized = true /\
  exists w1 w2 response data,
    answersNxdomain (dnsQueryUrl normalized) 0 = (w1, Returned response) /\
    response_ok response = true /\
    response_json response w1 = (w2, Returned data) /\
    (Status data = 3%Z \/ Answer data = None \/ Answer data = Some []).
Proof.
  apply (available_only_on_dns_evidence (fun s => s) (fun s => s)
           answersNxdomain quietLogger (units "www.example.com") 0 1
           (mkAvailability (units "example.com") true None None));
    reflexivity.
Defined.

Lemma checkAvailability_returns_when_logger_does_witness :
  exists w' result,
    checkAvailability (fun s => s) (fun s => s) unreachable quietLogger
      (units "example.com") 0 = (w', Returned result) /\
    (forall w1 e,
        unreachable
          (dnsQueryUrl (normalizeDomain (fun s => s) (fun s => s)
                          (units "example.com"))) 0 = (w1, Threw e) ->
        result_available result = false).
Proof.
  apply (checkAvailability_returns_when_logger_does (fun s => s) (fun s => s)
           unreachable quietLogger (units "example.com") 0).
  intros entry w0. reflexivity.
Defined.

(** * The file dump *)

Lemma sanitizeUnit_safe c :
  sanitizeUnit c <> slash /\ sanitizeUnit c <> dot /\
  (isLower (sanitizeUnit c) || isUpper (sanitizeUnit c)
   || isDigit (sanitizeUnit c) || (sanitizeUnit c =? 45)%nat
   || (sanitizeUnit c =? underscore)%nat) = true.
Proof.
  unfold sanitizeUnit.
  destruct (isLower c || isUpper c || isDigit c || (c =? 45)%nat
            || (c =? underscore)%nat) eqn:E.
  - split; [|split; [|exact E]]; intros ->; vm_compute in E; discriminate.
  - split; [|split; [|reflexivity]]; discriminate.
Qed.

(** [dumpFilesToLocal] gives a path only in development mode and for at
    least one file, and [null] otherwise.  The path is [./output/], the
    project name, a hyphen and the first 8 characters of the agent id,
    where the project name is cut to 50 characters and every character
    outside [[a-zA-Z0-9-_]] is replaced by an underscore, so that it brings
    no slash and no dot into the path. *)
Theorem dump_path_holds_a_safe_project_name (DEV_MODE : option string)
        (agentId projectName : list nat)
        (files : list (list nat * list nat)) :
  (DEV_MODE <> Some "true" \/ files = [] ->
   dumpFilesToLocal DEV_MODE agentId projectName files = None) /\
  (DEV_MODE = Some "true" -> files <> [] ->
   exists name,
     dumpFilesToLocal DEV_MODE agentId projectName files =
       Some (units "./output/" ++ name ++ units "-" ++ firstn 8 agentId) /\
     length name = Nat.min 50 (length projectName) /\
     Forall (fun c => c <> slash /\ c <> dot) name /\
     forall i c, nth_error name i = Some c ->
       exists original,
         nth_error projectName i = Some original /\
         c = sanitizeUnit original).
Proof.
  unfold dumpFilesToLocal. split.
  - intros [Hmode | ->].
    + destruct DEV_MODE as [v|]; [|reflexivity].
      destruct (String.eqb v "true") eqn:E; [|reflexivity].
      apply String.eqb_eq in E. subst v. contradiction.
    + destruct (negb _); reflexivity.
  - intros -> Hfiles. simpl.
    destruct files as [|f files]; [contradiction|]. simpl.
    exists (firstn 50 (map sanitizeUnit projectName)).
    split; [reflexivity|]. split; [|split].
    + rewrite length_firstn, length_map. reflexivity.
    + apply Forall_forall. intros c Hc.
      assert (Hin : In c (map sanitizeUnit projectName)).
      { rewrite <- (firstn_skipn 50 (map sanitizeUnit projectName)).
        apply in_or_app. left. exact Hc. }
      apply in_map_iff in Hin. destruct Hin as (o & <- & _).
      destruct (sanitizeUnit_safe o) as (H1 & H2 & _). auto.
    + intros i c Hnth.
      assert (Hi : i < 50).
      { assert (Hlt : i < length (firstn 50 (map sanitizeUnit projectName))).
        { apply nth_error_Some. rewrite Hnth. discriminate. }
        rewrite length_firstn in Hlt. lia. }
      rewrite nth_error_firstn in Hnth.
      destruct (i <? 50)%nat eqn:E; [|apply Nat.ltb_ge in E; lia].
      rewrite nth_error_map in Hnth.
      destruct (nth_error projectName i) as [o|]; [|discriminate].
      injection Hnth as <-. eauto.
Qed.

Lemma dump_path_holds_a_safe_project_name_witness :
  exists name,
    dumpFilesToLocal (Some "true") (units "443404bc-4921-4029")
      (units "../My Store") [(units "/index.html", units "<html>")] =
      Some (units "./output/" ++ name ++ units "-"
            ++ firstn 8 (units "443404bc-4921-4029")) /\
    length name = Nat.min 50 (length (units "../My Store")) /\
    Forall (fun c => c <> slash /\ c <> dot) name /\
    forall i c, nth_error name i = Some c ->
      exists original,
        nth_error (units "../My Store") i = Some original /\
        c = sanitizeUnit original.
Proof.
  apply (proj2 (dump_path_holds_a_safe_project_name (Some "true")
                  (units "443404bc-4921-4029") (units "../My Store")
                  [(units "/index.html", units "<html>")])).
  - reflexivity.
  - discriminate.
Defined.
